(** * The quobyte volume driver of convoy: lifecycle of named volumes

    A shallow embedding of [quobyte/quobyte.go].  The driver keeps one JSON
    file per volume below its root directory, talks to the Quobyte API
    through a client object and to the operating system through the mount
    helpers of package [util].  Every effect of the Go code (lock, file
    access, remote call, mount) is an event appended to a log, next to the
    file store it acts on; the operations are state-passing functions on
    that world, returning a value or the Go [error]. *)

From Stdlib Require Import Ascii String.
From stdpp Require Import base option list strings gmap fin_maps.

Local Open Scope string_scope.

(** ** Go results *)

(** A Go [error] built by [fmt.Errorf] or [errors.New] is its message. *)
Definition error : Type := string.

(** The pair [(value, error)] a fallible Go function returns. *)
Inductive Result (A : Type) : Type :=
| Ok (a : A)
| Err (e : error).
Arguments Ok {A} a.
Arguments Err {A} e.

(** ** Constants of the package *)

Definition DRIVER_NAME : string := "quobyte".
Definition DRIVER_CONFIG_FILE : string := "quobyte.cfg".
Definition VOLUME_CFG_PREFIX : string := "volume_".
Definition CFG_PREFIX : string := DRIVER_NAME +:+ "_".
Definition CFG_POSTFIX : string := ".json".
Definition MOUNTS_DIR : string := "mounts".
Definition QUOBYTE_API_URL : string := "quobyte.apiurl".
Definition QUOBYTE_API_USER : string := "quobyte.apiuser".
Definition QUOBYTE_API_PASSWORD : string := "quobyte.apipassword".
Definition QUOBYTE_REGISTRIES : string := "quobyte.registries".
Definition QUOBYTE_DEFAULT_USER : string := "quobyte.defaultuser".
Definition QUOBYTE_DEFAULT_GROUP : string := "quobyte.defaultgroup".
Definition QUOBYTE_DEFAULT_VOLUME_CONFIG : string := "quobyte.defaultvolumeconfig".

(** Modelled from the spec: the option and info keys of package
    [convoydriver], which the driver imports and which is not among the
    sources.  The spec names the request options [reference-only] and
    [mount-point]; the info key of the volume name is a third, distinct
    constant (Go rejects a map literal with two equal constant keys). *)
Definition OPT_REFERENCE_ONLY : string := "reference-only".
Definition OPT_MOUNT_POINT : string := "mount-point".
Definition OPT_VOLUME_NAME : string := "VolumeName".

(** ** Data *)

(** [type Device struct]: the manager configuration. *)
Module Device.
Record t : Type := Build {
  Root : string;
  Registries : string;
  User : string;
  Group : string;
  VolumeConfig : string;
  DefaultVolumeSize : Z
}.
End Device.

(** [type QuobyteVolume struct]: one volume record.  [configPath] is not
    exported, so it is not part of the JSON file. *)
Module QuobyteVolume.
Record t : Type := Build {
  Name : string;
  ID : string;
  MountPoint : string;
  configPath : string;
  User : string;
  Group : string;
  Device : string;
  Config : string
}.

Definition with_MountPoint (mp : string) (v : t) : t :=
  Build (Name v) (ID v) mp (configPath v) (User v) (Group v) (Device v) (Config v).

Definition with_configPath (p : string) (v : t) : t :=
  Build (Name v) (ID v) (MountPoint v) p (User v) (Group v) (Device v) (Config v).
End QuobyteVolume.

(** [convoydriver.Request]: the name of a volume and the options of the call. *)
Module Request.
Record t : Type := Build {
  Name : string;
  Options : gmap string string
}.
End Request.

(** [quobyte_api.CreateVolumeRequest]. *)
Module CreateVolumeRequest.
Record t : Type := Build {
  Name : string;
  RootUserID : string;
  RootGroupID : string;
  ConfigurationName : string
}.
End CreateVolumeRequest.

(** What a file of the store holds: the JSON of a [Device] or of a
    [QuobyteVolume]. *)
Inductive Object : Type :=
| ObjDevice (d : Device.t)
| ObjVolume (v : QuobyteVolume.t).

(** The exported operations of the driver, as a caller names them. *)
Inductive Call : Type :=
| CallCreateVolume (r : Request.t)
| CallDeleteVolume (r : Request.t)
| CallMountVolume (r : Request.t)
| CallUmountVolume (r : Request.t)
| CallMountPoint (r : Request.t)
| CallGetVolumeInfo (name : string)
| CallListVolume (opts : gmap string string).

(** What the driver asks of the disk and the disk may refuse. *)
Inductive DiskOp : Type :=
| OpWrite (path : string) (o : Object)
| OpRemove (path : string)
| OpList (root prefix suffix : string)
| OpMkdir (path : string).

(** The effects of the driver on its surroundings, each with its outcome,
    in the order the code performs them.  [EvCall] marks the entry into an
    exported operation; it is the observation on which "operation X was
    invoked" is stated and has no effect of its own. *)
Inductive Event : Type :=
| EvCall (c : Call)
| EvLock
| EvUnlock
| EvStat (path : string) (found : bool)
| EvRead (path : string) (err : option error)
| EvDisk (op : DiskOp) (err : option error)
| EvRemoteCreate (r : CreateVolumeRequest.t) (answer : Result string)
| EvRemoteDelete (id : string) (err : option error)
| EvMount (v : QuobyteVolume.t) (dev : string) (opts : list string) (hint : string)
    (answer : Result string)
| EvUmount (v : QuobyteVolume.t) (err : option error).

(** [quobyte_api.QuobyteClient]: the two remote calls the driver makes.  The
    answer of the cluster may depend on everything that happened before,
    which is the log at the time of the call (latest event first). *)
Module QuobyteClient.
Record t : Type := Build {
  CreateVolume : list Event → CreateVolumeRequest.t → Result string;
  DeleteVolume : list Event → string → option error
}.
End QuobyteClient.

(** [type Driver struct]: the client and the embedded [Device].  The mutex
    of the struct has no value of its own here: taking and releasing it are
    the events [EvLock] and [EvUnlock]. *)
Record Driver : Type := mkDriver {
  client : QuobyteClient.t;
  device : Device.t
}.

(** The surroundings of the process: the disk (which may refuse a write, a
    removal, a directory listing or a mkdir), the mount and unmount
    commands, the resolver, and the constructor of API clients. *)
Record Host : Type := mkHost {
  disk_fault : list Event → DiskOp → option error;
  mount_exec : list Event → QuobyteVolume.t → string → list string → string → bool → Result string;
  umount_exec : list Event → QuobyteVolume.t → option error;
  SplitHostPort : string → Result (string * string);
  ValidNetworkAddr : string → bool;
  NewQuobyteClient : string → string → string → QuobyteClient.t
}.

(** The state the driver acts on: the files below the storage roots, by
    path, and the log of effects so far, latest first. *)
Record World : Type := mkWorld {
  files : gmap string Object;
  log : list Event
}.

(** ** State and error passing *)

Definition M (A : Type) : Type := World → Result A * World.

Definition ret {A} (a : A) : M A := fun w => (Ok a, w).

Definition fail {A} (e : error) : M A := fun w => (Err e, w).

Definition bind {A B} (m : M A) (k : A → M B) : M B :=
  fun w => match m w with
           | (Ok a, w') => k a w'
           | (Err e, w') => (Err e, w')
           end.

Declare Scope go_scope.
Delimit Scope go_scope with go.
Notation "x <- m ;; k" := (bind m (fun x => k))
  (at level 100, m at next level, right associativity) : go_scope.
Notation "m ;; k" := (bind m (fun _ => k))
  (at level 100, right associativity) : go_scope.
Local Open Scope go_scope.

(** A pure fallible step, such as a [ConfigFile] method. *)
Definition lift {A} (r : Result A) : M A :=
  match r with
  | Ok a => ret a
  | Err e => fail e
  end.

Definition emit (ev : Event) : M unit :=
  fun w => (Ok tt, mkWorld (files w) (ev :: log w)).

Definition get_files : M (gmap string Object) := fun w => (Ok (files w), w).

Definition put_files (fs : gmap string Object) : M unit :=
  fun w => (Ok tt, mkWorld fs (log w)).

(** [d.mutex.Lock(); defer d.mutex.Unlock()]: the lock is released on every
    way out of the body, also when it returns an error. *)
Definition with_lock {A} (body : M A) : M A :=
  fun w => match body (mkWorld (files w) (EvLock :: log w)) with
           | (r, w') => (r, mkWorld (files w') (EvUnlock :: log w'))
           end.

(** ** Go library functions the driver uses *)

(** [map[string]string] indexing: the zero value for an absent key. *)
Definition go_index (m : gmap string string) (k : string) : string :=
  default "" (m !! k).

(** [if _, exists := config[k]; !exists { config[k] = v }]. *)
Definition set_default (k v : string) (config : gmap string string) : gmap string string :=
  match config !! k with
  | Some _ => config
  | None => <[k := v]> config
  end.

(** [filepath.Join] of a directory and a file name that need no cleaning. *)
Definition path_join (dir file : string) : string := dir +:+ "/" +:+ file.

(** [strings.Split(s, sep)] for a separator of one character. *)
Fixpoint split_on (sep : ascii) (s : string) : list string :=
  match s with
  | EmptyString => [""]
  | String c s' =>
      if Ascii.eqb c sep then "" :: split_on sep s'
      else match split_on sep s' with
           | [] => [String c ""]
           | x :: xs => String c x :: xs
           end
  end.

(** The double quote [strconv.Quote] puts around a string. *)
Definition dquote : string := String (ascii_of_nat 34) EmptyString.

(** [strconv.ParseBool]: the value, and the syntax error if the string is
    none of the twelve accepted spellings. *)
Definition ParseBool (str : string) : bool * option error :=
  if bool_decide (str ∈ ["1"; "t"; "T"; "true"; "TRUE"; "True"]) then (true, None)
  else if bool_decide (str ∈ ["0"; "f"; "F"; "false"; "FALSE"; "False"]) then (false, None)
  else (false, Some ("strconv.ParseBool: parsing " +:+ dquote +:+ str +:+ dquote
                     +:+ ": invalid syntax")).

(** [strings.TrimPrefix] and [strings.TrimSuffix], telling whether the
    prefix or suffix was there. *)
Fixpoint strip_prefix (p s : string) : option string :=
  match p with
  | EmptyString => Some s
  | String a p' =>
      match s with
      | EmptyString => None
      | String b s' => if Ascii.eqb a b then strip_prefix p' s' else None
      end
  end.

Fixpoint strip_suffix (suf s : string) : option string :=
  if String.eqb s suf then Some ""
  else match s with
       | EmptyString => None
       | String c s' => String c <$> strip_suffix suf s'
       end.

(** ** The methods of the two record types *)

(** The interface [util.ObjectOperations] ([ConfigFile]) together with what
    [encoding/json] does to a value of the type: it writes the exported
    fields and, on loading, overwrites exactly those. *)
Class ObjectOperations (T : Type) : Type := {
  ConfigFile : T → Result string;
  marshal : T → Object;
  unmarshal : Object → T → option T
}.

Definition Device_ConfigFile (dev : Device.t) : Result string :=
  if String.eqb (Device.Root dev) "" then Err "BUG: Invalid empty device config path"
  else Ok (path_join (Device.Root dev) DRIVER_CONFIG_FILE).

Definition QuobyteVolume_ConfigFile (v : QuobyteVolume.t) : Result string :=
  if String.eqb (QuobyteVolume.Name v) "" then Err "empty volume"
  else if String.eqb (QuobyteVolume.configPath v) "" then Err "empty config path"
  else Ok (path_join (QuobyteVolume.configPath v)
                     (CFG_PREFIX +:+ VOLUME_CFG_PREFIX +:+ QuobyteVolume.Name v +:+ CFG_POSTFIX)).

#[export] Instance Device_ops : ObjectOperations Device.t := {|
  ConfigFile := Device_ConfigFile;
  marshal := ObjDevice;
  unmarshal o _ := match o with ObjDevice d => Some d | ObjVolume _ => None end
|}.

#[export] Instance QuobyteVolume_ops : ObjectOperations QuobyteVolume.t := {|
  ConfigFile := QuobyteVolume_ConfigFile;
  marshal v := ObjVolume (QuobyteVolume.with_configPath "" v);
  unmarshal o into :=
    match o with
    | ObjVolume s => Some (QuobyteVolume.with_configPath (QuobyteVolume.configPath into) s)
    | ObjDevice _ => None
    end
|}.

Definition GetMountOpts (v : QuobyteVolume.t) : list string := ["-t"; "quobyte"].

Definition GetDevice (v : QuobyteVolume.t) : Result string := Ok (QuobyteVolume.Device v).

Definition GenerateDefaultMountPoint (v : QuobyteVolume.t) : string :=
  path_join (path_join (QuobyteVolume.configPath v) MOUNTS_DIR) (QuobyteVolume.Name v).

(** ** Errors of the driver *)

Definition AlreadyExists (id : string) : error := "volume " +:+ id +:+ " already exists".

Definition StillMounted (id : string) : error :=
  "Cannot delete volume " +:+ id +:+ ". It is still mounted".

(** Modelled from the spec: the two ways a [Load] of the record store
    fails, [NotFound] and [CorruptError]; package [util] is not among the
    sources. *)
Definition NotFound (key : string) : error := "cannot find " +:+ key.
Definition CorruptError (key : string) : error := "cannot decode " +:+ key.

Section Driver.

Context (h : Host).

(** A disk operation that the host may refuse: the refusal, if any, is the
    error of the step; either way the event is logged. *)
Definition io (op : DiskOp) : M unit :=
  fun w => let err := disk_fault h (log w) op in
           (match err with Some e => Err e | None => Ok tt end,
            mkWorld (files w) (EvDisk op err :: log w)).

(** *** Package util: the record store and the mount helpers *)

(** Modelled from the spec: [Exists(key) -> bool] of the Persistent Record
    Store, on the key the object's [ConfigFile] gives. *)
Definition ObjectExists {T} `{ObjectOperations T} (obj : T) : M bool :=
  key <- lift (ConfigFile obj);;
  fs <- get_files;;
  let found := bool_decide (is_Some (fs !! key)) in
  emit (EvStat key found);;
  ret found.

(** Modelled from the spec: [Load(key, into) -> ok|NotFound|CorruptError].
    The loaded value replaces the one passed in. *)
Definition ObjectLoad {T} `{ObjectOperations T} (obj : T) : M T :=
  key <- lift (ConfigFile obj);;
  fs <- get_files;;
  match fs !! key with
  | None => emit (EvRead key (Some (NotFound key)));; fail (NotFound key)
  | Some o =>
      match unmarshal o obj with
      | Some obj' => emit (EvRead key None);; ret obj'
      | None => emit (EvRead key (Some (CorruptError key)));; fail (CorruptError key)
      end
  end.

(** Modelled from the spec: [Save(key, record) -> ok|error]; a save either
    fully succeeds or leaves the previous value. *)
Definition ObjectSave {T} `{ObjectOperations T} (obj : T) : M unit :=
  key <- lift (ConfigFile obj);;
  io (OpWrite key (marshal obj));;
  fs <- get_files;;
  put_files (<[key := marshal obj]> fs).

(** Modelled from the spec: [Delete(key) -> ok|error]. *)
Definition ObjectDelete {T} `{ObjectOperations T} (obj : T) : M unit :=
  key <- lift (ConfigFile obj);;
  io (OpRemove key);;
  fs <- get_files;;
  put_files (delete key fs).

(** The identity a file name carries, if it is [root/prefix<id>suffix]. *)
Definition ExtractName (root prefix suffix key : string) : option string :=
  rest ← strip_prefix (path_join root prefix) key; strip_suffix suffix rest.

(** Modelled from the spec: [ListKeys(prefix, suffix)], the identities of
    exactly the records whose file name has the prefix and the suffix.  The
    Go function returns an error as well, which the driver passes on. *)
Definition ListConfigIDs (root prefix suffix : string) : M (list string) :=
  io (OpList root prefix suffix);;
  fs <- get_files;;
  ret (omap (ExtractName root prefix suffix) (map_to_list fs).*1).

(** Modelled from the spec: [util.MkdirIfNotExists], of which the spec says
    nothing more than that it is a step of the bootstrap; it touches no
    record and, like the other disk operations, may return an error. *)
Definition MkdirIfNotExists (path : string) : M unit := io (OpMkdir path).

(** Modelled from the spec: the Mount Executor,
    [Mount(volume, targetPathHint) -> mountPoint | error], given the device
    and the mount options of the record; on success the mount point is
    recorded in the volume passed in. *)
Definition VolumeMount (v : QuobyteVolume.t) (mountPoint : string) (remount : bool)
  : M (QuobyteVolume.t * string) :=
  dev <- lift (GetDevice v);;
  let opts := GetMountOpts v in
  fun w =>
    let answer := mount_exec h (log w) v dev opts mountPoint remount in
    (match answer with
     | Ok mp => Ok (QuobyteVolume.with_MountPoint mp v, mp)
     | Err e => Err e
     end,
     mkWorld (files w) (EvMount v dev opts mountPoint answer :: log w)).

(** Modelled from the spec: [Unmount(volume) -> ok | error]; on success the
    mount point of the volume passed in is cleared. *)
Definition VolumeUmount (v : QuobyteVolume.t) : M QuobyteVolume.t :=
  fun w =>
    let err := umount_exec h (log w) v in
    (match err with
     | None => Ok (QuobyteVolume.with_MountPoint "" v)
     | Some e => Err e
     end,
     mkWorld (files w) (EvUmount v err :: log w)).

(** *** The remote calls *)

Definition client_CreateVolume (c : QuobyteClient.t) (r : CreateVolumeRequest.t) : M string :=
  fun w => let answer := QuobyteClient.CreateVolume c (log w) r in
           (answer, mkWorld (files w) (EvRemoteCreate r answer :: log w)).

Definition client_DeleteVolume (c : QuobyteClient.t) (id : string) : M unit :=
  fun w => let err := QuobyteClient.DeleteVolume c (log w) id in
           (match err with None => Ok tt | Some e => Err e end,
            mkWorld (files w) (EvRemoteDelete id err :: log w)).

(** *** The driver *)


Definition blankVolume (d : Driver) (name : string) : QuobyteVolume.t :=
  QuobyteVolume.Build name "" "" (Device.Root (device d)) "" "" "" "".

Definition CreateVolume (d : Driver) (req : Request.t) : M unit :=
  emit (EvCall (CallCreateVolume req));;
  with_lock (
    let id := Request.Name req in
    let vol := blankVolume d id in
    exists_ <- ObjectExists vol;;
    if (exists_ : bool) then fail (AlreadyExists id)
    else
      volume_uuid <- client_CreateVolume (client d)
        (CreateVolumeRequest.Build id (Device.User (device d)) (Device.Group (device d))
           (Device.VolumeConfig (device d)));;
      let vol := QuobyteVolume.Build id volume_uuid (QuobyteVolume.MountPoint vol)
                   (QuobyteVolume.configPath vol) (Device.User (device d))
                   (Device.Group (device d)) id (Device.VolumeConfig (device d)) in
      ObjectSave vol).

Definition DeleteVolume (d : Driver) (req : Request.t) : M unit :=
  emit (EvCall (CallDeleteVolume req));;
  with_lock (
    let id := Request.Name req in
    let opts := Request.Options req in
    volume <- ObjectLoad (blankVolume d id);;
    if negb (String.eqb (QuobyteVolume.MountPoint volume) "") then fail (StillMounted id)
    else
      let referenceOnly := fst (ParseBool (go_index opts OPT_REFERENCE_ONLY)) in
      (if negb referenceOnly
       then client_DeleteVolume (client d) (QuobyteVolume.ID volume)
       else ret tt);;
      ObjectDelete volume).

Definition MountVolume (d : Driver) (req : Request.t) : M string :=
  emit (EvCall (CallMountVolume req));;
  with_lock (
    let id := Request.Name req in
    let opts := Request.Options req in
    vol <- ObjectLoad (blankVolume d id);;
    mounted <- VolumeMount vol (go_index opts OPT_MOUNT_POINT) false;;
    let '(vol, mountPoint) := mounted in
    ObjectSave vol;;
    ret mountPoint).

Definition UmountVolume (d : Driver) (req : Request.t) : M unit :=
  emit (EvCall (CallUmountVolume req));;
  with_lock (
    vol <- ObjectLoad (blankVolume d (Request.Name req));;
    vol <- VolumeUmount vol;;
    ObjectSave vol).

Definition MountPoint (d : Driver) (req : Request.t) : M string :=
  emit (EvCall (CallMountPoint req));;
  vol <- ObjectLoad (blankVolume d (Request.Name req));;
  ret (QuobyteVolume.MountPoint vol).

Definition GetVolumeInfo (d : Driver) (name : string) : M (gmap string string) :=
  emit (EvCall (CallGetVolumeInfo name));;
  with_lock (
    vol <- ObjectLoad (blankVolume d name);;
    ret (<[OPT_VOLUME_NAME := name]>
           (<["ID" := QuobyteVolume.ID vol]>
              (<["MountPoint" := QuobyteVolume.MountPoint vol]> ∅)))).

(** The body of the loop of [ListVolume], over the remaining ids. *)
Fixpoint ListVolume_loop (d : Driver) (ids : list string)
    (ret_ : gmap string (gmap string string)) : M (gmap string (gmap string string)) :=
  match ids with
  | [] => ret ret_
  | id :: rest =>
      info <- GetVolumeInfo d id;;
      ListVolume_loop d rest (<[id := info]> ret_)
  end.

Definition ListVolume (d : Driver) (opts : gmap string string)
  : M (gmap string (gmap string string)) :=
  emit (EvCall (CallListVolume opts));;
  volumes <- ListConfigIDs (Device.Root (device d)) (CFG_PREFIX +:+ VOLUME_CFG_PREFIX) CFG_POSTFIX;;
  ListVolume_loop d volumes ∅.

(** The body of the loop of [remountVolumes], over the remaining ids. *)
Fixpoint remountVolumes_loop (d : Driver) (ids : list string) : M unit :=
  match ids with
  | [] => ret tt
  | id :: rest =>
      vol <- ObjectLoad (blankVolume d id);;
      if String.eqb (QuobyteVolume.MountPoint vol) "" then remountVolumes_loop d rest
      else
        MountVolume d (Request.Build id ∅);;
        remountVolumes_loop d rest
  end.

Definition remountVolumes (d : Driver) : M unit :=
  volumes <- ListConfigIDs (Device.Root (device d)) (CFG_PREFIX +:+ VOLUME_CFG_PREFIX) CFG_POSTFIX;;
  remountVolumes_loop d volumes.

(** The two loops of [Init] over the required keys and over the registries. *)
Fixpoint check_required (config : gmap string string) (reqs : list string) : Result unit :=
  match reqs with
  | [] => Ok tt
  | req :: rest =>
      if String.eqb (go_index config req) ""
      then Err ("Missing required parameter: " +:+ go_index config req)
      else check_required config rest
  end.

Fixpoint check_registries (registries : list string) : Result unit :=
  match registries with
  | [] => Ok tt
  | registry :: rest =>
      match SplitHostPort h registry with
      | Err e => Err ("Invalid or unsolvable address: " +:+ e)
      | Ok (host, _) =>
          if negb (ValidNetworkAddr h host)
          then Err ("Invalid or unsolvable address: " +:+ host)
          else check_registries rest
      end
  end.

(** [Init].  The Go code writes the defaults into the map it was given; here
    the updated map is the local [config], read once more for the client. *)
Definition Init (root : string) (config : gmap string string) : M Driver :=
  let dev := Device.Build root "" "" "" "" 0 in
  exists_ <- ObjectExists dev;;
  loaded <-
    (if (exists_ : bool) then
       dev <- ObjectLoad dev;;
       ret (dev, config)
     else
       MkdirIfNotExists root;;
       lift (check_required config [QUOBYTE_API_URL; QUOBYTE_REGISTRIES]);;
       let registryList := go_index config QUOBYTE_REGISTRIES in
       lift (check_registries (split_on "," registryList));;
       let config := set_default QUOBYTE_API_USER "admin" config in
       let config := set_default QUOBYTE_API_PASSWORD "quobyte" config in
       let config := set_default QUOBYTE_DEFAULT_USER "root" config in
       let config := set_default QUOBYTE_DEFAULT_GROUP "nfsnobody" config in
       let config := set_default QUOBYTE_DEFAULT_VOLUME_CONFIG "BASE" config in
       ret (Device.Build root registryList
              (go_index config QUOBYTE_DEFAULT_USER)
              (go_index config QUOBYTE_DEFAULT_GROUP)
              (go_index config QUOBYTE_DEFAULT_VOLUME_CONFIG) 0,
            config));;
  let '(dev, config) := loaded in
  let driver := mkDriver
    (NewQuobyteClient h (go_index config QUOBYTE_API_URL)
       (go_index config QUOBYTE_API_USER) (go_index config QUOBYTE_API_PASSWORD))
    dev in
  remountVolumes driver;;
  ret driver.

End Driver.

(** ** Observations on a run *)

(** The events an operation added, latest first, given the world before
    and the world after it. *)
Definition events_of (w w' : World) : list Event :=
  take (length (log w') - length (log w)) (log w').

(** The outcome an event carries is an error. *)
Definition failed (ev : Event) : bool :=
  match ev with
  | EvRead _ (Some _) | EvDisk _ (Some _) | EvRemoteDelete _ (Some _)
  | EvUmount _ (Some _) | EvRemoteCreate _ (Err _) | EvMount _ _ _ _ (Err _) => true
  | _ => false
  end.

Definition is_remote_create (ev : Event) : bool :=
  match ev with EvRemoteCreate _ _ => true | _ => false end.

Definition is_remote_delete (ev : Event) : bool :=
  match ev with EvRemoteDelete _ _ => true | _ => false end.

(** The event changes the store: a write or a removal the disk accepted. *)
Definition is_store_change (ev : Event) : bool :=
  match ev with
  | EvDisk (OpWrite _ _) None | EvDisk (OpRemove _) None => true
  | _ => false
  end.

Definition is_lock (ev : Event) : bool :=
  match ev with EvLock => true | _ => false end.

Definition is_unlock (ev : Event) : bool :=
  match ev with EvUnlock => true | _ => false end.

Definition is_call (ev : Event) : bool :=
  match ev with EvCall _ => true | _ => false end.

(** An invocation of the Mount operation for the volume [n]. *)
Definition is_mount_call (n : string) (ev : Event) : bool :=
  match ev with
  | EvCall (CallMountVolume r) => bool_decide (Request.Name r = n)
  | _ => false
  end.

Definition is_info_call (ev : Event) : bool :=
  match ev with EvCall (CallGetVolumeInfo _) => true | _ => false end.

Fixpoint count (p : Event → bool) (evs : list Event) : nat :=
  match evs with
  | [] => 0
  | ev :: rest => (if p ev then 1 else 0) + count p rest
  end.

(** The record the store holds for the volume [n] of the driver [d]. *)
Definition stored_volume (d : Driver) (w : World) (n : string) : option QuobyteVolume.t :=
  match ConfigFile (blankVolume d n) with
  | Ok key =>
      match files w !! key with
      | Some (ObjVolume v) => Some v
      | _ => None
      end
  | Err _ => None
  end.

(** The record of [n] says the volume is mounted. *)
Definition mounted (d : Driver) (w : World) (n : string) : bool :=
  match stored_volume d w n with
  | Some v => negb (String.eqb (QuobyteVolume.MountPoint v) "")
  | None => false
  end.

(** Every volume record lies under the key of the name it carries: the
    name is the identity of the record and its key on disk. *)
Definition store_wf (d : Driver) (w : World) : Prop :=
  ∀ n v, stored_volume d w n = Some v → QuobyteVolume.Name v = n.

(** The mount point [GetVolumeInfo] reports for [n], if it answers. *)
Definition reported_mount_point (d : Driver) (n : string) (w : World) : option string :=
  match GetVolumeInfo d n w with
  | (Ok info, _) => info !! "MountPoint"
  | (Err _, _) => None
  end.

(** A call of the Remote Volume Client, provisioning or deprovisioning. *)
Definition is_remote (ev : Event) : bool := is_remote_create ev || is_remote_delete ev.

(** The events of an operation show the lock taken right after the entry
    [c], released as the last step, and neither taken nor released nor any
    other operation entered in between. *)
Definition held_throughout (c : Call) (evs : list Event) : Prop :=
  ∃ mid, evs = (EvUnlock :: mid ++ [EvLock; EvCall c])%list
    ∧ Forall (λ ev, is_lock ev = false ∧ is_unlock ev = false ∧ is_call ev = false) mid.

(** ** A concrete host and store, on which the driver can be run *)

(** A cluster that provisions every volume under the id [id-<name>]. *)
Definition demo_client : QuobyteClient.t :=
  QuobyteClient.Build
    (λ _ r, Ok ("id-" +:+ CreateVolumeRequest.Name r))
    (λ _ _, None).

(** A cluster that is out of reach. *)
Definition unreachable_client : QuobyteClient.t :=
  QuobyteClient.Build
    (λ _ _, Err "quobyte: connection refused")
    (λ _ _, Some "quobyte: connection refused").

(** A host on which nothing fails; a volume mounted without a hint goes to
    its default mount point. *)
Definition demo_host : Host :=
  mkHost (λ _ _, None)
         (λ _ v _ _ hint _,
            Ok (if String.eqb hint "" then GenerateDefaultMountPoint v else hint))
         (λ _ _, None)
         (λ s, Ok (s, "7861"))
         (λ _, true)
         (λ _ _ _, demo_client).

(** The same host with a mount command that always fails. *)
Definition host_without_mount : Host :=
  mkHost (λ _ _, None)
         (λ _ _ _ _ _ _, Err "mount: exit status 32")
         (λ _ _, None)
         (λ s, Ok (s, "7861"))
         (λ _, true)
         (λ _ _ _, demo_client).

Definition demo_root : string := "/var/lib/convoy/quobyte".

Definition demo_config : gmap string string :=
  <[QUOBYTE_API_URL := "http://quobyte-1:7860"]>
    (<[QUOBYTE_REGISTRIES := "quobyte-1:7861"]> ∅).

Definition demo_device : Device.t :=
  Device.Build demo_root "quobyte-1:7861" "root" "nfsnobody" "BASE" 0.

Definition demo_driver : Driver := mkDriver demo_client demo_device.

Definition unreachable_driver : Driver := mkDriver unreachable_client demo_device.

Definition empty_world : World := mkWorld ∅ [].

Definition vol1 : Request.t := Request.Build "vol1" ∅.

Definition vol2 : Request.t := Request.Build "vol2" ∅.

(** The world after [vol1] was created. *)
Definition world_created : World := (CreateVolume demo_host demo_driver vol1 empty_world).2.

(** The world after [vol1] was created and mounted. *)
Definition world_mounted : World := (MountVolume demo_host demo_driver vol1 world_created).2.

(** The world a restart finds: [vol1] mounted, [vol2] created and not mounted. *)
Definition world_at_restart : World :=
  (CreateVolume demo_host demo_driver vol2 world_mounted).2.

(** A request to drop the record of [vol1] and leave the remote volume. *)
Definition vol1_reference_only : Request.t :=
  Request.Build "vol1" {[ OPT_REFERENCE_ONLY := "true" ]}.

(** A request to delete [vol1] with a flag that is no boolean. *)
Definition vol1_flag_yes : Request.t :=
  Request.Build "vol1" {[ OPT_REFERENCE_ONLY := "yes" ]}.

(** The world after [vol1] was created, mounted and unmounted again. *)
Definition world_unmounted : World := (UmountVolume demo_host demo_driver vol1 world_mounted).2.

(** ** The rest of the driver *)

(** [func (d *Driver) Info()]: never fails. *)
Definition Info (d : Driver) : Result (gmap string string) :=
  Ok (<["VolumeConfig" := Device.VolumeConfig (device d)]>
        (<["User" := Device.User (device d)]>
           (<["Registries" := Device.Registries (device d)]>
              (<["Root" := Device.Root (device d)]> ∅)))).

(** ** Further observations *)

(** The map [GetVolumeInfo] builds for the name [name] from a loaded record. *)
Definition volume_info (name : string) (v : QuobyteVolume.t) : gmap string string :=
  <[OPT_VOLUME_NAME := name]>
    (<["ID" := QuobyteVolume.ID v]>
       (<["MountPoint" := QuobyteVolume.MountPoint v]> ∅)).

(** A run of the mount command. *)
Definition is_mount (ev : Event) : bool :=
  match ev with EvMount _ _ _ _ _ => true | _ => false end.

(** A run of the unmount command. *)
Definition is_umount (ev : Event) : bool :=
  match ev with EvUmount _ _ => true | _ => false end.

(** A call of the Mount Executor. *)
Definition is_mount_exec (ev : Event) : bool := is_mount ev || is_umount ev.

(** A request to the disk: a write, a removal, a listing or a mkdir. *)
Definition is_disk (ev : Event) : bool :=
  match ev with EvDisk _ _ => true | _ => false end.

(** The state of the mutex after the events [evs] (latest first), starting
    from a free mutex: [Some true] if it is held, [Some false] if it is
    free, and [None] if the events take a held mutex, which blocks for ever
    on Go's [sync.RWMutex], or release a free one, which panics. *)
Fixpoint held_after (evs : list Event) : option bool :=
  match evs with
  | [] => Some false
  | ev :: rest =>
      match held_after rest with
      | None => None
      | Some held =>
          match ev with
          | EvLock => if held then None else Some true
          | EvUnlock => if held then Some false else None
          | _ => Some held
          end
      end
  end.

(** The registries of a comma-separated list all split into host and port
    and all resolve. *)
Definition registries_valid (h : Host) (registryList : string) : Prop :=
  Forall (λ registry, ∃ host port, SplitHostPort h registry = Ok (host, port)
                                   ∧ ValidNetworkAddr h host = true)
         (split_on "," registryList).

(** The driver [Init] builds from the bootstrap options. *)
Definition bootstrap_driver (h : Host) (root : string) (config : gmap string string) : Driver :=
  mkDriver
    (NewQuobyteClient h (go_index config QUOBYTE_API_URL)
       (default "admin" (config !! QUOBYTE_API_USER))
       (default "quobyte" (config !! QUOBYTE_API_PASSWORD)))
    (Device.Build root (go_index config QUOBYTE_REGISTRIES)
       (default "root" (config !! QUOBYTE_DEFAULT_USER))
       (default "nfsnobody" (config !! QUOBYTE_DEFAULT_GROUP))
       (default "BASE" (config !! QUOBYTE_DEFAULT_VOLUME_CONFIG)) 0).

(** A host whose resolver knows no name. *)
Definition host_without_dns : Host :=
  mkHost (λ _ _, None)
         (λ _ v _ _ hint _,
            Ok (if String.eqb hint "" then GenerateDefaultMountPoint v else hint))
         (λ _ _, None)
         (λ s, Ok (s, "7861"))
         (λ _, false)
         (λ _ _ _, demo_client).

(** A host whose unmount command always fails. *)
Definition host_without_umount : Host :=
  mkHost (λ _ _, None)
         (λ _ v _ _ hint _,
            Ok (if String.eqb hint "" then GenerateDefaultMountPoint v else hint))
         (λ _ _, Some "umount: target is busy")
         (λ s, Ok (s, "7861"))
         (λ _, true)
         (λ _ _ _, demo_client).

(** Bootstrap options without the API endpoint. *)
Definition config_without_url : gmap string string :=
  <[QUOBYTE_REGISTRIES := "quobyte-1:7861"]> ∅.

(** Bootstrap options that set the default owner to the empty string. *)
Definition config_empty_user : gmap string string :=
  <[QUOBYTE_DEFAULT_USER := ""]> demo_config.

(** The world in which the configuration of [demo_device] was saved by hand. *)
Definition world_configured : World :=
  mkWorld (<[path_join demo_root DRIVER_CONFIG_FILE := ObjDevice demo_device]> ∅) [].

(** A request for the volume without a name. *)
Definition nameless : Request.t := Request.Build "" ∅.

(** A request to delete [vol1] on the cluster too. *)
Definition vol1_flag_false : Request.t :=
  Request.Build "vol1" {[ OPT_REFERENCE_ONLY := "false" ]}.

(** The world after [vol1] was created and deleted by reference only. *)
Definition world_deleted : World :=
  (DeleteVolume demo_host demo_driver vol1_reference_only world_created).2.

(** The event only looks: an entry into an operation, the lock, a stat, a
    read or a listing.  It leaves the disk, the cluster and the mounts as
    they are. *)
Definition is_observation (ev : Event) : bool :=
  match ev with
  | EvCall _ | EvLock | EvUnlock | EvStat _ _ | EvRead _ _ | EvDisk (OpList _ _ _) _ => true
  | _ => false
  end.

(** The events are observations and ask nothing of the disk. *)
Definition only_reads (evs : list Event) : Prop :=
  Forall (λ ev, is_observation ev = true ∧ is_disk ev = false) evs.

(** The run [out] from the world [w] ended in the error [e] having changed
    no file and having asked nothing of the disk, the cluster or the mount
    commands. *)
Definition fails_without_effect {A} (e : error) (w : World) (out : Result A * World) : Prop :=
  out.1 = Err e ∧ files out.2 = files w ∧ only_reads (events_of w out.2).

(** * Properties of the driver *)

(** ** Strings and file names *)

Section Strings.

Lemma string_app_nil (t : string) : "" +:+ t = t.
Proof. reflexivity. Qed.

Lemma string_app_cons (c : ascii) (s t : string) : String c s +:+ t = String c (s +:+ t).
Proof. reflexivity. Qed.

Lemma string_app_assoc (s t u : string) : (s +:+ t) +:+ u = s +:+ (t +:+ u).
Proof.
  induction s as [|c s IH]; [done|]. rewrite !string_app_cons. by f_equal.
Qed.

Lemma string_length_app (s t : string) :
  String.length (s +:+ t) = String.length s + String.length t.
Proof.
  induction s as [|c s IH]; [done|]. rewrite string_app_cons. cbn. by f_equal.
Qed.

Lemma string_app_inv_tail (s s' t : string) : s +:+ t = s' +:+ t → s = s'.
Proof.
  revert s'. induction s as [|c s IH]; intros [|c' s'] E;
    rewrite ?string_app_cons, ?string_app_nil in E.
  - done.
  - apply (f_equal String.length) in E. cbn in E. rewrite string_length_app in E. lia.
  - apply (f_equal String.length) in E. cbn in E. rewrite string_length_app in E. lia.
  - injection E as -> E. f_equal. by apply IH.
Qed.

Lemma strip_prefix_spec (p s r : string) : strip_prefix p s = Some r ↔ s = p +:+ r.
Proof.
  revert s. induction p as [|a p IH]; intros s; cbn [strip_prefix];
    rewrite ?string_app_cons, ?string_app_nil.
  - split; [by intros [= ->] | by intros ->].
  - destruct s as [|b s]; [split; discriminate|].
    destruct (Ascii.eqb_spec a b) as [->|Hne].
    + rewrite IH. split; [by intros -> | by intros [= ->]].
    + split; [discriminate | intros [= ? ?]; congruence].
Qed.

Lemma strip_suffix_spec (suf s r : string) : strip_suffix suf s = Some r ↔ s = r +:+ suf.
Proof.
  revert r. induction s as [|c s IH]; intros r; cbn [strip_suffix].
  - destruct (String.eqb_spec "" suf) as [<-|Hne].
    + split; [by intros [= <-]|]. destruct r; [done|discriminate].
    + split; [discriminate|]. destruct r; rewrite ?string_app_cons, ?string_app_nil;
        [congruence|discriminate].
  - destruct (String.eqb_spec (String c s) suf) as [<-|Hne].
    + split; [by intros [= <-]|]. intros E.
      destruct r as [|c' r]; [done|]. exfalso.
      apply (f_equal String.length) in E. rewrite string_length_app in E.
      cbn in E. lia.
    + destruct (strip_suffix suf s) as [r'|] eqn:Hs; cbn [fmap option_fmap option_map].
      * pose proof (proj1 (IH r') eq_refl) as ->. split; [by intros [= <-]|].
        destruct r as [|c' r]; rewrite ?string_app_cons, ?string_app_nil; [congruence|].
        intros [= <- E]. f_equal. f_equal. by apply string_app_inv_tail in E.
      * split; [discriminate|].
        destruct r as [|c' r]; rewrite ?string_app_cons, ?string_app_nil; [congruence|].
        intros [= <- E]. by apply IH in E.
Qed.

(** [ExtractName] recognises exactly the file names of the naming scheme. *)
Lemma ExtractName_spec (root pre suf key id : string) :
  ExtractName root pre suf key = Some id ↔ key = path_join root (pre +:+ id +:+ suf).
Proof.
  unfold ExtractName, path_join. split.
  - intros H. destruct (strip_prefix _ key) as [rest|] eqn:Hp; [|done]. cbn in H.
    apply strip_prefix_spec in Hp as ->. apply strip_suffix_spec in H as ->.
    by rewrite !string_app_assoc.
  - intros ->. 
    assert (strip_prefix (root +:+ "/" +:+ pre) (root +:+ "/" +:+ pre +:+ id +:+ suf)
            = Some (id +:+ suf)) as ->.
    { apply strip_prefix_spec. by rewrite !string_app_assoc. }
    cbn. by apply strip_suffix_spec.
Qed.

(** Two volumes never share a file, and no volume file is the
    configuration file. *)
Lemma volume_key_inj (root n n' : string) :
  path_join root (CFG_PREFIX +:+ VOLUME_CFG_PREFIX +:+ n +:+ CFG_POSTFIX)
  = path_join root (CFG_PREFIX +:+ VOLUME_CFG_PREFIX +:+ n' +:+ CFG_POSTFIX) →
  n = n'.
Proof.
  unfold path_join. intros E.
  do 4 apply String.app_inj in E. by apply string_app_inv_tail in E.
Qed.

Lemma volume_key_not_config (root n : string) :
  path_join root (CFG_PREFIX +:+ VOLUME_CFG_PREFIX +:+ n +:+ CFG_POSTFIX)
  ≠ path_join root DRIVER_CONFIG_FILE.
Proof.
  unfold path_join. intros E. do 2 apply String.app_inj in E. discriminate.
Qed.

End Strings.

(** ** Event lists *)

Lemma events_of_app w w' evs : (log w' = evs ++ log w)%list → events_of w w' = evs.
Proof.
  intros E. unfold events_of. rewrite E, length_app.
  replace (length evs + length (log w) - length (log w)) with (length evs) by lia.
  by rewrite take_app_length.
Qed.

Lemma count_app p (l1 l2 : list Event) : count p (l1 ++ l2)%list = count p l1 + count p l2.
Proof. induction l1 as [|x l1 IH]; cbn; [done|]. rewrite IH. lia. Qed.

Lemma count_zero p (l : list Event) : Forall (λ ev, p ev = false) l → count p l = 0.
Proof. induction 1 as [|x l Hx _ IH]; cbn; [done|]. by rewrite Hx, IH. Qed.

Lemma is_mount_call_not_call n (l : list Event) :
  Forall (λ ev, is_call ev = false) l → count (is_mount_call n) l = 0.
Proof.
  intros H. apply count_zero. eapply Forall_impl; [done|].
  intros [] Hc; cbn in *; done.
Qed.

Lemma NoDup_omap_inj {A B} (f : A → option B) (l : list A) :
  (∀ x y b, f x = Some b → f y = Some b → x = y) →
  NoDup l → NoDup (omap f l).
Proof.
  intros Hinj. induction 1 as [|x l Hx Hl IH]; cbn; [constructor|].
  destruct (f x) as [b|] eqn:Hfx; [|done].
  constructor; [|done]. intros Hin. apply list_elem_of_omap in Hin as (y & Hy & Hfy).
  by rewrite (Hinj x y b Hfx Hfy) in Hx.
Qed.

(** ** Running the code: unfolding and case analysis *)

Ltac go_unfold :=
  cbv [CreateVolume DeleteVolume MountVolume UmountVolume MountPoint GetVolumeInfo
       with_lock bind emit get_files put_files lift ret fail io
       client_CreateVolume client_DeleteVolume VolumeMount VolumeUmount
       ObjectExists ObjectLoad ObjectSave ObjectDelete GetDevice MkdirIfNotExists];
  cbn [files log].

Tactic Notation "go_unfold" "in" hyp(H) :=
  cbv [CreateVolume DeleteVolume MountVolume UmountVolume MountPoint GetVolumeInfo
       with_lock bind emit get_files put_files lift ret fail io
       client_CreateVolume client_DeleteVolume VolumeMount VolumeUmount
       ObjectExists ObjectLoad ObjectSave ObjectDelete GetDevice MkdirIfNotExists] in H;
  cbn [files log] in H.

Ltac go_step := cbv beta iota zeta; cbn [files log].

Tactic Notation "go_step" "in" hyp(H) := cbv beta iota zeta in H; cbn [files log] in H.

Ltac vol_simpl :=
  cbn [unmarshal marshal QuobyteVolume_ops QuobyteVolume.with_configPath
       QuobyteVolume.with_MountPoint QuobyteVolume.Name QuobyteVolume.ID
       QuobyteVolume.MountPoint QuobyteVolume.configPath QuobyteVolume.User
       QuobyteVolume.Group QuobyteVolume.Device QuobyteVolume.Config blankVolume].

Tactic Notation "vol_simpl" "in" hyp(H) :=
  cbn [unmarshal marshal QuobyteVolume_ops QuobyteVolume.with_configPath
       QuobyteVolume.with_MountPoint QuobyteVolume.Name QuobyteVolume.ID
       QuobyteVolume.MountPoint QuobyteVolume.configPath QuobyteVolume.User
       QuobyteVolume.Group QuobyteVolume.Device QuobyteVolume.Config blankVolume] in H.

Ltac prefix_of l base :=
  lazymatch l with
  | base => constr:(@nil Event)
  | ?e :: ?l' => let r := prefix_of l' base in constr:(e :: r)
  end.

Ltac events :=
  cbn [files log];
  repeat match goal with
  | |- context [events_of ?w (mkWorld ?fs ?l)] =>
      let evs := prefix_of l (log w) in
      rewrite (events_of_app w (mkWorld fs l) evs eq_refl)
  end.

Ltac in_events :=
  events;
  cbn [In count is_remote is_remote_create is_remote_delete is_store_change orb Nat.add];
  eauto 20.

Ltac give_prefix :=
  cbn [files log];
  lazymatch goal with
  | |- ∃ evs, ?l = (evs ++ ?base)%list ∧ _ =>
      let p := prefix_of l base in exists p; split; [reflexivity|]
  end.

(** ** Keys and stored records *)

Lemma blank_key d n key :
  ConfigFile (blankVolume d n) = Ok key →
  n ≠ "" ∧ Device.Root (device d) ≠ "" ∧
  key = path_join (Device.Root (device d)) (CFG_PREFIX +:+ VOLUME_CFG_PREFIX +:+ n +:+ CFG_POSTFIX).
Proof.
  cbn. unfold QuobyteVolume_ConfigFile. cbn.
  destruct (String.eqb_spec n ""); [discriminate|].
  destruct (String.eqb_spec (Device.Root (device d)) ""); [discriminate|].
  intros [= <-]. done.
Qed.

Lemma blank_key_inj d n n' key :
  ConfigFile (blankVolume d n) = Ok key → ConfigFile (blankVolume d n') = Ok key → n = n'.
Proof.
  intros (_ & _ & ->)%blank_key (_ & _ & E)%blank_key. symmetry. by eapply volume_key_inj.
Qed.

Lemma ConfigFile_same (v v' : QuobyteVolume.t) :
  QuobyteVolume.Name v = QuobyteVolume.Name v' →
  QuobyteVolume.configPath v = QuobyteVolume.configPath v' →
  ConfigFile v = ConfigFile v'.
Proof. intros Hn Hp. cbn. unfold QuobyteVolume_ConfigFile. by rewrite Hn, Hp. Qed.

Lemma blankVolume_key_name d n (v : QuobyteVolume.t) :
  QuobyteVolume.Name v = n →
  QuobyteVolume.configPath v = Device.Root (device d) →
  ConfigFile v = ConfigFile (blankVolume d n).
Proof. intros <- Hp. by apply ConfigFile_same. Qed.

Lemma stored_key d w n key v :
  ConfigFile (blankVolume d n) = Ok key →
  files w !! key = Some (ObjVolume v) →
  stored_volume d w n = Some v.
Proof. intros Hk Ho. unfold stored_volume. by rewrite Hk, Ho. Qed.

Lemma stored_volume_inv d w n v :
  stored_volume d w n = Some v →
  ∃ key, ConfigFile (blankVolume d n) = Ok key ∧ files w !! key = Some (ObjVolume v).
Proof.
  unfold stored_volume. intros H. repeat case_match; simplify_eq. eauto.
Qed.

Lemma stored_volume_same d w w' n :
  files w' = files w → stored_volume d w' n = stored_volume d w n.
Proof. unfold stored_volume. by intros ->. Qed.

Lemma stored_volume_insert_ne d w w' n n' key o :
  ConfigFile (blankVolume d n') = Ok key →
  files w' = <[key := o]> (files w) →
  n ≠ n' →
  stored_volume d w' n = stored_volume d w n.
Proof.
  intros Hk Hf Hne. unfold stored_volume. rewrite Hf.
  destruct (ConfigFile (blankVolume d n)) as [k|] eqn:Hkn; [|done].
  rewrite lookup_insert_ne; [done|]. intros <-. apply Hne. by eapply blank_key_inj.
Qed.

(** ** The record store *)

(** The registry lists every volume file once, and nothing else. *)
Lemma ListConfigIDs_spec h root pre suf w ids w' :
  ListConfigIDs h root pre suf w = (Ok ids, w') →
  files w' = files w
  ∧ log w' = EvDisk (OpList root pre suf) None :: log w
  ∧ NoDup ids
  ∧ ∀ id, id ∈ ids ↔ is_Some (files w !! path_join root (pre +:+ id +:+ suf)).
Proof.
  unfold ListConfigIDs, bind, io, get_files, ret. cbn [files log].
  destruct (disk_fault h (log w) (OpList root pre suf)) eqn:Hf; [discriminate|].
  cbn [files log]. intros [= <- <-]. cbn [files log]. repeat split.
  - apply NoDup_omap_inj; [|apply NoDup_fst_map_to_list].
    intros x y b Hx%ExtractName_spec Hy%ExtractName_spec. congruence.
  - intros (key & Hkey & He)%list_elem_of_omap. apply ExtractName_spec in He as ->.
    apply list_elem_of_fmap in Hkey as ([k o] & -> & Hin). cbn.
    apply elem_of_map_to_list in Hin. eauto.
  - intros [o Ho]. apply list_elem_of_omap. eexists. split.
    + apply list_elem_of_fmap. exists (path_join root (pre +:+ id +:+ suf), o). split; [done|].
      by apply elem_of_map_to_list.
    + by apply ExtractName_spec.
Qed.

Lemma ObjectLoad_volume_ok d n w vol w1 :
  ObjectLoad (blankVolume d n) w = (Ok vol, w1) →
  ∃ key v, ConfigFile (blankVolume d n) = Ok key
    ∧ files w !! key = Some (ObjVolume v)
    ∧ vol = QuobyteVolume.with_configPath (Device.Root (device d)) v
    ∧ w1 = mkWorld (files w) (EvRead key None :: log w).
Proof.
  intros E. go_unfold in E.
  destruct (ConfigFile (blankVolume d n)) as [key|e] eqn:Hk; [|discriminate].
  go_step in E. destruct (files w !! key) as [[dv|v]|] eqn:Ho; vol_simpl in E; go_step in E;
    [discriminate| |discriminate].
  simplify_eq. by exists key, v.
Qed.

Lemma ObjectLoad_volume_files (v : QuobyteVolume.t) w r w1 :
  ObjectLoad v w = (r, w1) → files w1 = files w.
Proof.
  intros E. go_unfold in E. repeat (case_match; simplify_eq); by simplify_eq.
Qed.

Lemma ObjectExists_volume_inv d n w b :
  fst (ObjectExists (blankVolume d n) w) = Ok b →
  ∃ key, ConfigFile (blankVolume d n) = Ok key
    ∧ b = bool_decide (is_Some (files w !! key)).
Proof.
  go_unfold. destruct (ConfigFile (blankVolume d n)) as [key|e]; [|discriminate].
  go_step. cbn [fst]. intros [= <-]. by exists key.
Qed.

(** ** What the operations do *)

Lemma CreateVolume_existing h d req w key o :
  ConfigFile (blankVolume d (Request.Name req)) = Ok key →
  files w !! key = Some o →
  ∃ w', CreateVolume h d req w = (Err (AlreadyExists (Request.Name req)), w')
        ∧ files w' = files w
        ∧ count is_remote (events_of w w') = 0.
Proof.
  intros Hk Ho. destruct (CreateVolume h d req w) as [r w'] eqn:E. exists w'.
  go_unfold in E. rewrite Hk in E. go_step in E. rewrite Ho in E.
  rewrite bool_decide_eq_true_2 in E by eauto. simplify_eq.
  repeat split. events. reflexivity.
Qed.

Lemma CreateVolume_fresh h d req w key r w' :
  ConfigFile (blankVolume d (Request.Name req)) = Ok key →
  files w !! key = None →
  CreateVolume h d req w = (r, w') →
  let n := Request.Name req in
  let creq := CreateVolumeRequest.Build n (Device.User (device d)) (Device.Group (device d))
                (Device.VolumeConfig (device d)) in
  ∃ answer, In (EvRemoteCreate creq answer) (events_of w w') ∧
    count is_remote (events_of w w') = 1 ∧
    match answer with
    | Err e => r = Err e ∧ files w' = files w ∧ count is_store_change (events_of w w') = 0
    | Ok id =>
        let rec := ObjVolume (QuobyteVolume.Build n id "" "" (Device.User (device d))
                                (Device.Group (device d)) n (Device.VolumeConfig (device d))) in
        ∃ err, In (EvDisk (OpWrite key rec) err) (events_of w w') ∧
          match err with
          | None => r = Ok tt ∧ files w' = <[key := rec]> (files w)
          | Some e => r = Err e ∧ files w' = files w
          end
    end.
Proof.
  intros Hk Ho E. cbv zeta.
  go_unfold in E. rewrite Hk in E. go_step in E. rewrite Ho in E.
  rewrite bool_decide_eq_false_2 in E by (intros [? ?]; done).
  go_step in E.
  match type of E with context [QuobyteClient.CreateVolume ?c ?l ?q] =>
    exists (QuobyteClient.CreateVolume c l q);
    destruct (QuobyteClient.CreateVolume c l q) as [id|e] eqn:Ha end.
  - match type of E with context [ConfigFile ?v] =>
      rewrite (ConfigFile_same v (blankVolume d (Request.Name req)) eq_refl eq_refl), Hk in E end.
    go_step in E.
    match type of E with context [disk_fault h ?l ?op] =>
      destruct (disk_fault h l op) as [e|] eqn:Hf end; simplify_eq.
    + split; [in_events|]. split; [in_events|].
      exists (Some e). split; [in_events|]. done.
    + split; [in_events|]. split; [in_events|].
      exists None. split; [in_events|]. done.
  - simplify_eq. split; [in_events|]. split; [in_events|]. split; [done|]. split; [done|]. in_events.
Qed.

Lemma CreateVolume_ok_inv h d req w w1 :
  CreateVolume h d req w = (Ok tt, w1) →
  ∃ key id, ConfigFile (blankVolume d (Request.Name req)) = Ok key
    ∧ files w !! key = None
    ∧ files w1 = <[key := ObjVolume (QuobyteVolume.Build (Request.Name req) id "" ""
                     (Device.User (device d)) (Device.Group (device d)) (Request.Name req)
                     (Device.VolumeConfig (device d)))]> (files w).
Proof.
  intros E.
  destruct (ConfigFile (blankVolume d (Request.Name req))) as [key|e] eqn:Hk.
  2: { go_unfold in E. rewrite Hk in E. discriminate. }
  destruct (files w !! key) as [o|] eqn:Ho.
  { destruct (CreateVolume_existing h d req w key o Hk Ho) as (w' & E' & _). congruence. }
  destruct (CreateVolume_fresh h d req w key _ _ Hk Ho E) as (answer & _ & _ & Ha).
  destruct answer as [id|e]; [|by destruct Ha].
  destruct Ha as ([e|] & _ & Hr); [by destruct Hr|]. destruct Hr as [_ Hf].
  by exists key, id.
Qed.

Lemma ParseBool_rejected (s : string) : snd (ParseBool s) ≠ None → fst (ParseBool s) = false.
Proof. unfold ParseBool. repeat case_bool_decide; cbn; done. Qed.

(** What a call of [MountVolume] logs and what it does to the store. *)
Lemma MountVolume_spec h d req w r w' :
  MountVolume h d req w = (r, w') →
  ∃ evs, log w' = (evs ++ EvCall (CallMountVolume req) :: log w)%list
    ∧ Forall (λ ev, is_call ev = false) evs
    ∧ (∀ p, r = Ok p → Forall (λ ev, failed ev = false) evs)
    ∧ match r with
      | Ok p =>
          ∃ v key, stored_volume d w (Request.Name req) = Some v
            ∧ ConfigFile (blankVolume d (QuobyteVolume.Name v)) = Ok key
            ∧ files w' = <[key := ObjVolume (QuobyteVolume.with_configPath ""
                                               (QuobyteVolume.with_MountPoint p v))]> (files w)
      | Err _ => files w' = files w
      end.
Proof.
  intros E. go_unfold in E.
  destruct (ConfigFile (blankVolume d (Request.Name req))) as [key|e] eqn:Hk.
  2: { simplify_eq. give_prefix. (split; [repeat constructor|]; split; [discriminate|done]). }
  go_step in E. destruct (files w !! key) as [[dv|v]|] eqn:Ho; vol_simpl in E; go_step in E.
  1, 3: simplify_eq; give_prefix; (split; [repeat constructor|]; split; [discriminate|done]).
  vol_simpl in E.
  match type of E with context [mount_exec h ?l ?a ?b ?c ?x ?y] =>
    destruct (mount_exec h l a b c x y) as [p|e] eqn:Hr end.
  2: { simplify_eq; give_prefix; (split; [repeat constructor|]; split; [discriminate|done]). }
  go_step in E.
  match type of E with context [ConfigFile ?v'] =>
    rewrite (blankVolume_key_name d (QuobyteVolume.Name v) v' eq_refl eq_refl) in E;
    destruct (ConfigFile (blankVolume d (QuobyteVolume.Name v))) as [key2|e] eqn:Hk2 end.
  2: { simplify_eq; give_prefix; (split; [repeat constructor|]; split; [discriminate|done]). }
  go_step in E.
  match type of E with context [disk_fault h ?l ?op] =>
    destruct (disk_fault h l op) as [e|] eqn:Hf end.
  { simplify_eq; give_prefix; (split; [repeat constructor|]; split; [discriminate|done]). }
  simplify_eq. give_prefix. split; [repeat constructor|]. split.
  - intros _ _. repeat constructor.
  - exists v, key2. split; [by eapply stored_key|]. by split.
Qed.

Lemma UmountVolume_spec h d req w r w' :
  UmountVolume h d req w = (r, w') →
  match r with
  | Ok _ =>
      ∃ v key, stored_volume d w (Request.Name req) = Some v
        ∧ ConfigFile (blankVolume d (QuobyteVolume.Name v)) = Ok key
        ∧ files w' = <[key := ObjVolume (QuobyteVolume.with_configPath ""
                                           (QuobyteVolume.with_MountPoint "" v))]> (files w)
  | Err _ => files w' = files w
  end.
Proof.
  intros E. go_unfold in E.
  destruct (ConfigFile (blankVolume d (Request.Name req))) as [key|e] eqn:Hk.
  2: { simplify_eq. done. }
  go_step in E. destruct (files w !! key) as [[dv|v]|] eqn:Ho; vol_simpl in E; go_step in E.
  1, 3: simplify_eq; done.
  match type of E with context [umount_exec h ?l ?a] =>
    destruct (umount_exec h l a) as [e|] eqn:Hr end.
  { simplify_eq. done. }
  go_step in E.
  match type of E with context [ConfigFile ?v'] =>
    rewrite (blankVolume_key_name d (QuobyteVolume.Name v) v' eq_refl eq_refl) in E;
    destruct (ConfigFile (blankVolume d (QuobyteVolume.Name v))) as [key2|e] eqn:Hk2 end.
  2: { simplify_eq. done. }
  go_step in E.
  match type of E with context [disk_fault h ?l ?op] =>
    destruct (disk_fault h l op) as [e|] eqn:Hf end.
  { simplify_eq. done. }
  simplify_eq. exists v, key2. split; [by eapply stored_key|]. by split.
Qed.

Lemma GetVolumeInfo_reports d n w key v :
  ConfigFile (blankVolume d n) = Ok key →
  files w !! key = Some (ObjVolume v) →
  reported_mount_point d n w = Some (QuobyteVolume.MountPoint v).
Proof.
  intros Hk Ho. unfold reported_mount_point. go_unfold. rewrite Hk. go_step. rewrite Ho.
  vol_simpl. go_step. vol_simpl.
  rewrite lookup_insert_ne by done. rewrite lookup_insert_ne by done.
  apply lookup_insert_eq.
Qed.

(** ** The names of the records: an invariant of the store *)

Lemma store_wf_empty d w : files w = ∅ → store_wf d w.
Proof.
  intros Hf n v (key & _ & Ho)%stored_volume_inv. by rewrite Hf, lookup_empty in Ho.
Qed.

Lemma store_wf_same d w w' : files w' = files w → store_wf d w → store_wf d w'.
Proof. intros Hf Hwf n v Hs. apply Hwf. by rewrite <- (stored_volume_same d w w'). Qed.

Lemma store_wf_insert d w w' n key v :
  ConfigFile (blankVolume d n) = Ok key →
  QuobyteVolume.Name v = n →
  files w' = <[key := ObjVolume v]> (files w) →
  store_wf d w → store_wf d w'.
Proof.
  intros Hk Hn Hf Hwf n0 v0 Hs. destruct (decide (n0 = n)) as [->|Hne].
  - apply stored_volume_inv in Hs as (key0 & Hk0 & Ho). rewrite Hk in Hk0.
    injection Hk0 as <-. rewrite Hf, lookup_insert_eq in Ho. by injection Ho as <-.
  - apply Hwf. rewrite <- Hs. symmetry. by eapply stored_volume_insert_ne.
Qed.

Lemma store_wf_delete d w w' key :
  files w' = delete key (files w) → store_wf d w → store_wf d w'.
Proof.
  intros Hf Hwf n v (key0 & Hk0 & Ho)%stored_volume_inv. apply Hwf.
  rewrite Hf in Ho. apply lookup_delete_Some in Ho as [_ Ho]. by eapply stored_key.
Qed.

Lemma CreateVolume_wf h d req w r w' :
  CreateVolume h d req w = (r, w') → store_wf d w → store_wf d w'.
Proof.
  intros E Hwf.
  destruct (ConfigFile (blankVolume d (Request.Name req))) as [key|e] eqn:Hk.
  2: { go_unfold in E. rewrite Hk in E. simplify_eq. (refine (store_wf_same d w _ _ Hwf); done). }
  destruct (files w !! key) as [o|] eqn:Ho.
  { destruct (CreateVolume_existing h d req w key o Hk Ho) as (w1 & E' & Hf & _).
    rewrite E in E'. injection E' as _ <-. (refine (store_wf_same d w _ _ Hwf); done). }
  destruct (CreateVolume_fresh h d req w key _ _ Hk Ho E) as (answer & _ & _ & Ha).
  destruct answer as [id|e]; [|destruct Ha as (_ & Hf & _); (refine (store_wf_same d w _ _ Hwf); done)].
  destruct Ha as ([e|] & _ & Hr); [destruct Hr; (refine (store_wf_same d w _ _ Hwf); done)|].
  destruct Hr as [_ Hf]. refine (store_wf_insert d w w' (Request.Name req) _ _ Hk _ Hf Hwf); reflexivity.
Qed.

Lemma MountVolume_wf h d req w r w' :
  MountVolume h d req w = (r, w') → store_wf d w → store_wf d w'.
Proof.
  intros (evs & _ & _ & _ & Hf)%MountVolume_spec Hwf.
  destruct r as [p|e]; [destruct Hf as (v & key & _ & Hk & Hf)|].
  - refine (store_wf_insert d w w' (QuobyteVolume.Name v) _ _ Hk _ Hf Hwf); reflexivity.
  - refine (store_wf_same d w _ _ Hwf); done.
Qed.

Lemma UmountVolume_wf h d req w r w' :
  UmountVolume h d req w = (r, w') → store_wf d w → store_wf d w'.
Proof.
  intros Hf%UmountVolume_spec Hwf.
  destruct r as [p|e]; [destruct Hf as (v & key & _ & Hk & Hf)|].
  - refine (store_wf_insert d w w' (QuobyteVolume.Name v) _ _ Hk _ Hf Hwf); reflexivity.
  - refine (store_wf_same d w _ _ Hwf); done.
Qed.

Lemma DeleteVolume_wf h d req w r w' :
  DeleteVolume h d req w = (r, w') → store_wf d w → store_wf d w'.
Proof.
  intros E Hwf. go_unfold in E.
  repeat (case_match; simplify_eq); simplify_eq;
    first [ (refine (store_wf_same d w _ _ Hwf); done) | (refine (store_wf_delete d w _ _ _ Hwf); done) ].
Qed.

(** ** Startup *)

(** The loop of [remountVolumes], when it runs to its end: one Mount per
    listed volume whose record has a mount point, every listed record
    loaded, nothing failed. *)
Lemma remountVolumes_loop_spec h d ids : ∀ w w',
  NoDup ids →
  (∀ n v, n ∈ ids → stored_volume d w n = Some v → QuobyteVolume.Name v = n) →
  remountVolumes_loop h d ids w = (Ok tt, w') →
  ∃ evs, log w' = (evs ++ log w)%list
    ∧ (∀ n, count (is_mount_call n) evs
            = if bool_decide (n ∈ ids) && mounted d w n then 1 else 0)
    ∧ (∀ r, In (EvCall (CallMountVolume r)) evs → Request.Options r = ∅)
    ∧ Forall (λ ev, failed ev = false) evs
    ∧ (∀ n, n ∈ ids → is_Some (stored_volume d w n)).
Proof.
  induction ids as [|id rest IH]; intros w w' Hnd Hwf E.
  - cbn in E. injection E as <-. exists []. split; [done|]. split; [|split; [|split]].
    + intros n. cbn [count]. rewrite bool_decide_eq_false_2; [done|]. apply not_elem_of_nil.
    + intros ? [].
    + constructor.
    + intros n Hin. by apply not_elem_of_nil in Hin.
  - apply NoDup_cons in Hnd as [Hid Hnd].
    cbn [remountVolumes_loop] in E. unfold bind at 1 in E.
    destruct (ObjectLoad (blankVolume d id) w) as [[vol|e] w1] eqn:El; [|discriminate].
    apply ObjectLoad_volume_ok in El as (key & v & Hk & Ho & -> & ->).
    vol_simpl in E.
    assert (stored_volume d w id = Some v) as Hsv by by eapply stored_key.
    destruct (String.eqb_spec (QuobyteVolume.MountPoint v) "") as [Hm|Hm].
    + apply IH in E as (evs & Hl & Hc & Ho' & Hf & Hall); [|done|].
      2: { intros n v' Hin Hs. apply (Hwf n v'); [by right|].
           by rewrite <- Hs; apply stored_volume_same. }
      exists (evs ++ [EvRead key None])%list. cbn [log] in Hl.
      split; [by rewrite Hl, <- app_assoc|]. split; [|split; [|split]].
      * intros n. rewrite count_app, Hc. cbn [count is_mount_call]. 
        assert (mounted d (mkWorld (files w) (EvRead key None :: log w)) n = mounted d w n) as ->.
        { unfold mounted. by rewrite (stored_volume_same d w). }
        destruct (decide (n = id)) as [->|Hne].
        -- rewrite (bool_decide_eq_false_2 (id ∈ rest)) by done.
           unfold mounted. rewrite Hsv, Hm. cbn. by rewrite andb_false_r.
        -- rewrite (bool_decide_ext (n ∈ id :: rest) (n ∈ rest)); [lia|].
           rewrite elem_of_cons. tauto.
      * intros r [Hin|[[=]|[]]]%in_app_or. by apply Ho'.
      * apply Forall_app. split; [done|]. repeat constructor.
      * intros n [->|Hin]%elem_of_cons; [by rewrite Hsv|].
        rewrite <- (stored_volume_same d w (mkWorld (files w) (EvRead key None :: log w)))
          by done. by apply Hall.
    + unfold bind at 1 in E.
      destruct (MountVolume h d _ _) as [[p|e] w2] eqn:Em; [|discriminate].
      apply MountVolume_spec in Em as (evm & Hlm & Hcm & Hfm & Hfiles).
      cbn [Request.Name files log] in *.
      assert (∀ n, n ≠ id → stored_volume d w2 n = stored_volume d w n) as Hframe.
      { intros n Hne. destruct Hfiles as (v' & key' & Hs' & Hk' & Hfiles).
        rewrite (stored_volume_same d w) in Hs' by done.
        rewrite Hsv in Hs'. injection Hs' as <-. cbn [files] in Hfiles.
        rewrite (Hwf id v ltac:(left) Hsv) in Hk'.
        by eapply stored_volume_insert_ne. }
      apply IH in E as (evs & Hl & Hc & Ho' & Hf & Hall); [|done|].
      2: { intros n v' Hin Hs. apply (Hwf n v'); [by right|].
           rewrite <- Hs. symmetry. apply Hframe. by intros ->. }
      exists (evs ++ evm ++ [EvCall (CallMountVolume (Request.Build id ∅)); EvRead key None])%list.
      split; [rewrite Hl, Hlm; by rewrite <- !app_assoc|]. split; [|split; [|split]].
      * intros n. rewrite !count_app, Hc, is_mount_call_not_call by done.
        cbn [count is_mount_call Request.Name].
        destruct (decide (n = id)) as [->|Hne].
        -- rewrite (bool_decide_eq_false_2 (id ∈ rest)) by done.
           rewrite (bool_decide_eq_true_2 (id = id)) by done.
           rewrite (bool_decide_eq_true_2 (id ∈ id :: rest)) by left.
           unfold mounted at 2. rewrite Hsv.
           destruct (String.eqb_spec (QuobyteVolume.MountPoint v) ""); [done|]. cbn. done.
        -- rewrite (bool_decide_eq_false_2 (id = n)) by done.
           rewrite (bool_decide_ext (n ∈ id :: rest) (n ∈ rest));
             [|rewrite elem_of_cons; tauto].
           unfold mounted. rewrite Hframe by done. lia.
      * intros r [Hin|[Hin|[[= <-]|[[=]|[]]]]%in_app_or]%in_app_or; [by apply Ho'| |done].
        exfalso. rewrite Forall_forall in Hcm. 
        specialize (Hcm _ (proj2 (list_elem_of_In _ _) Hin)). done.
      * apply Forall_app. split; [done|]. apply Forall_app. split; [by eapply Hfm|].
        repeat constructor.
      * intros n [->|Hin]%elem_of_cons; [by rewrite Hsv|].
        rewrite <- Hframe; [by apply Hall|]. by intros ->.
Qed.

Lemma Init_ok_inv h root config w d w' :
  Init h root config w = (Ok d, w') →
  ∃ w0 evs0, files w0 = files w
    ∧ log w0 = (evs0 ++ log w)%list
    ∧ Forall (λ ev, is_call ev = false) evs0
    ∧ Forall (λ ev, failed ev = false) evs0
    ∧ remountVolumes h d w0 = (Ok tt, w').
Proof.
  intros E. unfold Init in E. go_unfold in E.
  destruct (ConfigFile (Device.Build root "" "" "" "" 0)) as [key|e] eqn:Hk; [|discriminate].
  go_step in E.
  destruct (files w !! key) as [[dv|v]|] eqn:Ho.
  - rewrite bool_decide_eq_true_2 in E by eauto. go_step in E.
    rewrite Ho in E. cbn [unmarshal Device_ops] in E. go_step in E.
    match type of E with context [remountVolumes h ?dr ?w0] =>
      destruct (remountVolumes h dr w0) as [[[]|e] w1] eqn:Er end; [|discriminate].
    simplify_eq.
    match type of Er with remountVolumes _ _ ?w0 = _ => exists w0 end.
    eexists [_; _]. split; [done|]. split; [reflexivity|].
    split; [|split]; [repeat constructor..|done].
  - rewrite bool_decide_eq_true_2 in E by eauto. go_step in E.
    rewrite Ho in E. cbn [unmarshal Device_ops] in E. go_step in E. discriminate.
  - rewrite bool_decide_eq_false_2 in E by (by intros [? ?]). go_step in E.
    destruct (disk_fault h _ (OpMkdir root)) as [e|] eqn:Hf; [discriminate|].
    go_step in E.
    destruct (check_required _ _) as [[]|e]; [|discriminate]. go_step in E.
    destruct (check_registries _ _) as [[]|e]; [|discriminate]. go_step in E.
    match type of E with context [remountVolumes h ?dr ?w0] =>
      destruct (remountVolumes h dr w0) as [[[]|e] w1] eqn:Er end; [|discriminate].
    simplify_eq.
    match type of Er with remountVolumes _ _ ?w0 = _ => exists w0 end.
    eexists [_; _]. split; [done|]. split; [reflexivity|].
    split; [|split]; [repeat constructor..|done].
Qed.

Lemma mounted_listed h d w ids w1 n :
  ListConfigIDs h (Device.Root (device d)) (CFG_PREFIX +:+ VOLUME_CFG_PREFIX) CFG_POSTFIX w
    = (Ok ids, w1) →
  mounted d w n = true → n ∈ ids.
Proof.
  intros (_ & _ & _ & Hin)%ListConfigIDs_spec Hm. apply Hin.
  unfold mounted in Hm. destruct (stored_volume d w n) as [v|] eqn:Hs; [|done].
  apply stored_volume_inv in Hs as (key & Hk & Ho).
  apply blank_key in Hk as (_ & _ & ->). rewrite string_app_assoc. eauto.
Qed.

(** Whatever the loop of [remountVolumes] does, it leaves a file alone
    that is not the file of a volume. *)
Lemma remountVolumes_loop_frame h d key ids : ∀ w r w',
  (∀ n, ConfigFile (blankVolume d n) ≠ Ok key) →
  remountVolumes_loop h d ids w = (r, w') →
  files w' !! key = files w !! key.
Proof.
  induction ids as [|id rest IH]; intros w r w' Hkey E.
  - cbn in E. by injection E as _ <-.
  - cbn [remountVolumes_loop] in E. unfold bind at 1 in E.
    destruct (ObjectLoad (blankVolume d id) w) as [[vol|e] w1] eqn:El.
    2: { injection E as _ <-. by rewrite (ObjectLoad_volume_files _ _ _ _ El). }
    apply ObjectLoad_volume_files in El.
    destruct (String.eqb _ _).
    + rewrite (IH _ _ _ Hkey E). by rewrite El.
    + unfold bind at 1 in E.
      destruct (MountVolume h d _ w1) as [[p|e] w2] eqn:Em;
        apply MountVolume_spec in Em as (_ & _ & _ & _ & Hf).
      * destruct Hf as (v & key2 & _ & Hk2 & Hf).
        rewrite (IH _ _ _ Hkey E), Hf, lookup_insert_ne, El; [done|].
        intros <-. by apply (Hkey (QuobyteVolume.Name v)).
      * injection E as _ <-. by rewrite Hf, El.
Qed.

(** ** The lock *)

Ltac mid_of l :=
  lazymatch l with
  | [EvLock; EvCall _] => constr:(@nil Event)
  | ?e :: ?l' => let r := mid_of l' in constr:(e :: r)
  end.

Ltac held :=
  events;
  lazymatch goal with
  | |- held_throughout _ (EvUnlock :: ?l) =>
      let m := mid_of l in exists m; split; [reflexivity | repeat constructor]
  end.

Ltac held_by_cases op :=
  intros;
  match goal with
  | |- held_throughout _ (events_of ?w (?m ?w).2) =>
      destruct (m w) as [r w'] eqn:E; cbn [snd];
      cbv [op] in E; go_unfold in E;
      repeat (case_match; simplify_eq); simplify_eq; held
  end.

Lemma CreateVolume_held h d req w :
  held_throughout (CallCreateVolume req) (events_of w (CreateVolume h d req w).2).
Proof. held_by_cases CreateVolume. Qed.

Lemma DeleteVolume_held h d req w :
  held_throughout (CallDeleteVolume req) (events_of w (DeleteVolume h d req w).2).
Proof. held_by_cases DeleteVolume. Qed.

Lemma MountVolume_held h d req w :
  held_throughout (CallMountVolume req) (events_of w (MountVolume h d req w).2).
Proof. held_by_cases MountVolume. Qed.

Lemma UmountVolume_held h d req w :
  held_throughout (CallUmountVolume req) (events_of w (UmountVolume h d req w).2).
Proof. held_by_cases UmountVolume. Qed.

Lemma GetVolumeInfo_held d n w :
  held_throughout (CallGetVolumeInfo n) (events_of w (GetVolumeInfo d n w).2).
Proof. held_by_cases GetVolumeInfo. Qed.

Lemma MountPoint_lock_free d req w :
  Forall (λ ev, is_lock ev = false ∧ is_unlock ev = false) (events_of w (MountPoint d req w).2).
Proof.
  destruct (MountPoint d req w) as [r w'] eqn:E; cbn [snd]. go_unfold in E.
  repeat (case_match; simplify_eq); simplify_eq; events; repeat constructor.
Qed.

Lemma GetVolumeInfo_log d n w :
  ∃ evs, log (GetVolumeInfo d n w).2 = (evs ++ log w)%list
    ∧ count is_lock evs = 1 ∧ count is_info_call evs = 1.
Proof.
  destruct (GetVolumeInfo d n w) as [r w'] eqn:E; cbn [snd]. go_unfold in E.
  repeat (case_match; simplify_eq); simplify_eq; cbn [log];
    (eexists [_; _; _; _]; split; [reflexivity|done])
    || (eexists [_; _; _]; split; [reflexivity|done]).
Qed.

Lemma ListVolume_loop_log d ids : ∀ acc w,
  ∃ evs, log (ListVolume_loop d ids acc w).2 = (evs ++ log w)%list
    ∧ count is_lock evs = count is_info_call evs.
Proof.
  induction ids as [|id rest IH]; intros acc w.
  - exists []. done.
  - cbn [ListVolume_loop]. unfold bind at 1.
    destruct (GetVolumeInfo_log d id w) as (evs1 & Hl1 & Hc1 & Hi1).
    destruct (GetVolumeInfo d id w) as [[info|e] w1]; cbn [snd] in Hl1.
    + destruct (IH (<[id := info]> acc) w1) as (evs2 & Hl2 & Hc2).
      exists (evs2 ++ evs1)%list. split; [by rewrite Hl2, Hl1, app_assoc|].
      rewrite !count_app. lia.
    + exists evs1. split; [done|lia].
Qed.

(** ** CreateVolume *)

(** C2. A volume whose record exists cannot be created again: the call
    fails with [AlreadyExists], the Remote Volume Client is not called and
    the store is what it was.  In particular this is what a second
    [CreateVolume] does right after a successful first one. *)
Theorem C2_create_existing_rejected h d req :
  (∀ w, fst (ObjectExists (blankVolume d (Request.Name req)) w) = Ok true →
     ∃ w', CreateVolume h d req w = (Err (AlreadyExists (Request.Name req)), w')
           ∧ files w' = files w
           ∧ count is_remote (events_of w w') = 0)
  ∧ (∀ w w1, CreateVolume h d req w = (Ok tt, w1) →
     ∃ w2, CreateVolume h d req w1 = (Err (AlreadyExists (Request.Name req)), w2)
           ∧ files w2 = files w1
           ∧ count is_remote (events_of w1 w2) = 0).
Proof.
  split.
  - intros w (key & Hk & Hb)%ObjectExists_volume_inv.
    symmetry in Hb. apply bool_decide_eq_true in Hb as [o Ho].
    by eapply CreateVolume_existing.
  - intros w w1 (key & id & Hk & _ & Hf)%CreateVolume_ok_inv.
    eapply CreateVolume_existing; [done|]. rewrite Hf. apply lookup_insert_eq.
Qed.

Lemma C2_witness :
  fst (ObjectExists (blankVolume demo_driver "vol1") world_created) = Ok true
  ∧ CreateVolume demo_host demo_driver vol1 empty_world = (Ok tt, world_created)
  ∧ ∃ w2, CreateVolume demo_host demo_driver vol1 world_created
          = (Err (AlreadyExists "vol1"), w2)
        ∧ files w2 = files world_created
        ∧ count is_remote (events_of world_created w2) = 0.
Proof.
  assert (fst (ObjectExists (blankVolume demo_driver "vol1") world_created) = Ok true) as Hx
    by (vm_compute; reflexivity).
  assert (CreateVolume demo_host demo_driver vol1 empty_world = (Ok tt, world_created)) as E
    by (vm_compute; reflexivity).
  split; [exact Hx|]. split; [exact E|].
  exact (proj1 (C2_create_existing_rejected demo_host demo_driver vol1) world_created Hx).
Defined.

(** C3. Creating a volume that has no record calls the Remote Volume Client
    once.  If that call fails, its error is the result and nothing is
    written; if it returns an id, the record with that id, an empty mount
    point and the volume name as device is saved under the key of the
    volume (and the call returns what the save returns). *)
Theorem C3_create_all_or_nothing h d req w r w' :
  fst (ObjectExists (blankVolume d (Request.Name req)) w) = Ok false →
  CreateVolume h d req w = (r, w') →
  let n := Request.Name req in
  let creq := CreateVolumeRequest.Build n (Device.User (device d)) (Device.Group (device d))
                (Device.VolumeConfig (device d)) in
  ∃ answer, In (EvRemoteCreate creq answer) (events_of w w')
    ∧ count is_remote (events_of w w') = 1
    ∧ match answer with
      | Err e => r = Err e ∧ files w' = files w
                 ∧ count is_store_change (events_of w w') = 0
      | Ok id =>
          let rec := QuobyteVolume.Build n id "" "" (Device.User (device d))
                       (Device.Group (device d)) n (Device.VolumeConfig (device d)) in
          ∃ key err, ConfigFile (blankVolume d n) = Ok key
            ∧ In (EvDisk (OpWrite key (ObjVolume rec)) err) (events_of w w')
            ∧ match err with
              | None => r = Ok tt ∧ files w' = <[key := ObjVolume rec]> (files w)
                        ∧ stored_volume d w' n = Some rec
              | Some e => r = Err e ∧ files w' = files w
              end
      end.
Proof.
  intros (key & Hk & Hb)%ObjectExists_volume_inv E. cbv zeta.
  symmetry in Hb. apply bool_decide_eq_false in Hb.
  assert (files w !! key = None) as Ho.
  { destruct (files w !! key) eqn:Ho; [|done]. destruct Hb. eauto. }
  destruct (CreateVolume_fresh h d req w key r w' Hk Ho E) as (answer & Hin & Hc & Ha).
  exists answer. split; [done|]. split; [done|].
  destruct answer as [id|e]; [|done].
  destruct Ha as (err & Hin' & Ha). exists key, err. split; [done|]. split; [done|].
  destruct err as [e|]; [done|]. destruct Ha as [-> Hf]. split; [done|]. split; [done|].
  eapply stored_key; [done|]. rewrite Hf. apply lookup_insert_eq.
Qed.

Lemma C3_witness :
  fst (ObjectExists (blankVolume unreachable_driver "vol1") empty_world) = Ok false
  ∧ fst (CreateVolume demo_host unreachable_driver vol1 empty_world)
    = Err "quobyte: connection refused"
  ∧ files (CreateVolume demo_host unreachable_driver vol1 empty_world).2 = files empty_world.
Proof.
  assert (fst (ObjectExists (blankVolume unreachable_driver "vol1") empty_world) = Ok false)
    as Hx by (vm_compute; reflexivity).
  split; [exact Hx|].
  destruct (C3_create_all_or_nothing demo_host unreachable_driver vol1 empty_world
              (CreateVolume demo_host unreachable_driver vol1 empty_world).1
              (CreateVolume demo_host unreachable_driver vol1 empty_world).2
              Hx (surjective_pairing _)) as (answer & Hin & _ & Ha).
  vm_compute in Hin.
  destruct Hin as [Hin|[Hin|[Hin|[Hin|[Hin|[]]]]]]; try discriminate Hin.
  injection Hin as <-. exact (conj (proj1 Ha) (proj1 (proj2 Ha))).
Defined.

(** ** DeleteVolume *)

(** C4. A volume whose record has a mount point cannot be deleted: the
    call fails with [StillMounted], the Remote Volume Client is not asked
    to deprovision, and the store, so the record, is what it was. *)
Theorem C4_delete_mounted_rejected h d req w v :
  stored_volume d w (Request.Name req) = Some v →
  QuobyteVolume.MountPoint v ≠ "" →
  ∃ w', DeleteVolume h d req w = (Err (StillMounted (Request.Name req)), w')
        ∧ files w' = files w
        ∧ stored_volume d w' (Request.Name req) = Some v
        ∧ count is_remote_delete (events_of w w') = 0
        ∧ count is_store_change (events_of w w') = 0.
Proof.
  intros Hs Hm. pose proof Hs as (key & Hk & Ho)%stored_volume_inv.
  destruct (DeleteVolume h d req w) as [r w'] eqn:E. exists w'.
  go_unfold in E. rewrite Hk in E. go_step in E. rewrite Ho in E.
  vol_simpl in E. go_step in E. vol_simpl in E.
  destruct (String.eqb_spec (QuobyteVolume.MountPoint v) ""); [done|].
  cbn [negb] in E. simplify_eq. split; [done|]. split; [done|].
  split; [done|]. split; in_events.
Qed.

Lemma C4_witness :
  mounted demo_driver world_mounted "vol1" = true
  ∧ ∃ w', DeleteVolume demo_host demo_driver vol1 world_mounted
          = (Err (StillMounted "vol1"), w')
        ∧ files w' = files world_mounted.
Proof.
  split; [vm_compute; reflexivity|].
  edestruct (C4_delete_mounted_rejected demo_host demo_driver vol1 world_mounted)
    as (w' & E & Hf & _).
  - vm_compute. reflexivity.
  - vm_compute. discriminate.
  - exists w'. exact (conj E Hf).
Defined.

(** C5. A reference-only delete of an unmounted volume never asks the
    Remote Volume Client to deprovision; it removes the file of the record,
    and when the disk performs the removal the call succeeds and the volume
    has no record any more. *)
Theorem C5_delete_reference_only h d req w v r w' :
  stored_volume d w (Request.Name req) = Some v →
  QuobyteVolume.Name v = Request.Name req →
  QuobyteVolume.MountPoint v = "" →
  ParseBool (go_index (Request.Options req) OPT_REFERENCE_ONLY) = (true, None) →
  DeleteVolume h d req w = (r, w') →
  count is_remote_delete (events_of w w') = 0
  ∧ ∃ key err, ConfigFile (blankVolume d (Request.Name req)) = Ok key
      ∧ In (EvDisk (OpRemove key) err) (events_of w w')
      ∧ match err with
        | None => r = Ok tt ∧ files w' = delete key (files w)
                  ∧ stored_volume d w' (Request.Name req) = None
        | Some e => r = Err e ∧ files w' = files w
        end.
Proof.
  intros Hs Hn Hm Hp E. apply stored_volume_inv in Hs as (key & Hk & Ho).
  go_unfold in E. rewrite Hk in E. go_step in E. rewrite Ho in E.
  vol_simpl in E. go_step in E. vol_simpl in E.
  rewrite Hm, Hp in E. cbn [String.eqb negb fst] in E. go_step in E.
  match type of E with context [ConfigFile ?v] =>
    rewrite (ConfigFile_same v (blankVolume d (Request.Name req)) Hn eq_refl), Hk in E end.
  go_step in E.
  match type of E with context [disk_fault h ?l ?op] =>
    destruct (disk_fault h l op) as [e|] eqn:Hf end; simplify_eq.
  - split; [in_events|]. exists key, (Some e). repeat split; in_events.
  - split; [in_events|]. exists key, None. repeat split; try in_events.
    unfold stored_volume. rewrite Hk. cbn [files]. by rewrite lookup_delete_eq.
Qed.

Lemma C5_witness :
  stored_volume demo_driver world_created "vol1"
  = Some (QuobyteVolume.Build "vol1" "id-vol1" "" "" "root" "nfsnobody" "vol1" "BASE")
  ∧ fst (DeleteVolume demo_host demo_driver vol1_reference_only world_created) = Ok tt
  ∧ stored_volume demo_driver
      (DeleteVolume demo_host demo_driver vol1_reference_only world_created).2 "vol1" = None
  ∧ count is_remote_delete
      (events_of world_created
         (DeleteVolume demo_host demo_driver vol1_reference_only world_created).2) = 0.
Proof.
  assert (stored_volume demo_driver world_created "vol1"
          = Some (QuobyteVolume.Build "vol1" "id-vol1" "" "" "root" "nfsnobody" "vol1" "BASE"))
    as Hs by (vm_compute; reflexivity).
  split; [exact Hs|].
  destruct (C5_delete_reference_only demo_host demo_driver vol1_reference_only world_created
              _ _ _ Hs eq_refl eq_refl eq_refl (surjective_pairing _))
    as (Hc & key & err & Hk & Hin & Ha).
  vm_compute in Hin.
  destruct Hin as [Hin|[Hin|[Hin|[Hin|[Hin|[]]]]]]; try discriminate Hin.
  injection Hin as <- <-. destruct Ha as (Hr & _ & Hn).
  exact (conj Hr (conj Hn Hc)).
Defined.

(** C10. A [reference-only] option that [strconv.ParseBool] does not accept
    (the option may also be absent, which reads as the empty string) counts
    as false: the parse error is dropped, the Remote Volume Client is asked
    once to deprovision the stored remote id, and the delete goes on from
    there as it does for an explicit false. *)
Theorem C10_delete_malformed_flag h d req w v r w' :
  stored_volume d w (Request.Name req) = Some v →
  QuobyteVolume.Name v = Request.Name req →
  QuobyteVolume.MountPoint v = "" →
  snd (ParseBool (go_index (Request.Options req) OPT_REFERENCE_ONLY)) ≠ None →
  DeleteVolume h d req w = (r, w') →
  fst (ParseBool (go_index (Request.Options req) OPT_REFERENCE_ONLY)) = false
  ∧ count is_remote_delete (events_of w w') = 1
  ∧ ∃ err, In (EvRemoteDelete (QuobyteVolume.ID v) err) (events_of w w')
      ∧ match err with
        | Some e => r = Err e ∧ files w' = files w
        | None =>
            ∃ key derr, ConfigFile (blankVolume d (Request.Name req)) = Ok key
              ∧ In (EvDisk (OpRemove key) derr) (events_of w w')
              ∧ match derr with
                | None => r = Ok tt ∧ files w' = delete key (files w)
                | Some e => r = Err e ∧ files w' = files w
                end
        end.
Proof.
  intros Hs Hn Hm Hp%ParseBool_rejected E. split; [done|].
  apply stored_volume_inv in Hs as (key & Hk & Ho).
  go_unfold in E. rewrite Hk in E. go_step in E. rewrite Ho in E.
  vol_simpl in E. go_step in E. vol_simpl in E.
  rewrite Hm, Hp in E. cbn [String.eqb negb] in E. go_step in E.
  match type of E with context [QuobyteClient.DeleteVolume ?c ?l ?i] =>
    destruct (QuobyteClient.DeleteVolume c l i) as [e|] eqn:Hr end.
  - simplify_eq. split; [in_events|]. exists (Some e). split; [in_events|done].
  - go_step in E.
    match type of E with context [ConfigFile ?v] =>
      rewrite (ConfigFile_same v (blankVolume d (Request.Name req)) Hn eq_refl), Hk in E end.
    go_step in E.
    match type of E with context [disk_fault h ?l ?op] =>
      destruct (disk_fault h l op) as [e|] eqn:Hf end; simplify_eq.
    + split; [in_events|]. exists None. split; [in_events|].
      exists key, (Some e). repeat split; in_events.
    + split; [in_events|]. exists None. split; [in_events|].
      exists key, None. repeat split; in_events.
Qed.
Lemma C10_witness :
  snd (ParseBool (go_index (Request.Options vol1_flag_yes) OPT_REFERENCE_ONLY)) ≠ None
  ∧ fst (ParseBool (go_index (Request.Options vol1_flag_yes) OPT_REFERENCE_ONLY)) = false
  ∧ count is_remote_delete
      (events_of world_created
         (DeleteVolume demo_host demo_driver vol1_flag_yes world_created).2) = 1.
Proof.
  assert (snd (ParseBool (go_index (Request.Options vol1_flag_yes) OPT_REFERENCE_ONLY)) ≠ None)
    as Hp by (vm_compute; discriminate).
  split; [exact Hp|].
  destruct (C10_delete_malformed_flag demo_host demo_driver vol1_flag_yes world_created
              (QuobyteVolume.Build "vol1" "id-vol1" "" "" "root" "nfsnobody" "vol1" "BASE")
              _ _ ltac:(vm_compute; reflexivity) eq_refl eq_refl Hp (surjective_pairing _))
    as (Hfalse & Hc & _).
  exact (conj Hfalse Hc).
Defined.

(** ** MountVolume and UmountVolume *)

(** C7. When the volume has a record, [MountVolume] calls the Mount
    Executor with the loaded record, its device and the fixed mount options;
    if the executor fails, its error is the result, nothing is written, and
    the stored record is the one from before the call. *)
Theorem C7_mount_failure_keeps_record h d req w v r w' :
  stored_volume d w (Request.Name req) = Some v →
  MountVolume h d req w = (r, w') →
  ∃ answer,
    In (EvMount (QuobyteVolume.with_configPath (Device.Root (device d)) v)
          (QuobyteVolume.Device v) ["-t"; "quobyte"]
          (go_index (Request.Options req) OPT_MOUNT_POINT) answer) (events_of w w')
    ∧ ∀ e, answer = Err e →
        r = Err e ∧ files w' = files w
        ∧ stored_volume d w' (Request.Name req) = Some v
        ∧ count is_store_change (events_of w w') = 0.
Proof.
  intros Hs E. pose proof Hs as Hs'. apply stored_volume_inv in Hs as (key & Hk & Ho).
  go_unfold in E. rewrite Hk in E. go_step in E. rewrite Ho in E.
  vol_simpl in E. go_step in E. vol_simpl in E.
  match type of E with context [mount_exec h ?l ?a ?b ?c ?x ?y] =>
    exists (mount_exec h l a b c x y);
    destruct (mount_exec h l a b c x y) as [p|e] eqn:Hr end.
  - go_step in E. repeat case_match; simplify_eq; (split; [in_events|discriminate]).
  - simplify_eq. split; [in_events|]. intros ? [= <-]. repeat split; in_events.
Qed.
Lemma C7_witness :
  stored_volume demo_driver world_created "vol1"
  = Some (QuobyteVolume.Build "vol1" "id-vol1" "" "" "root" "nfsnobody" "vol1" "BASE")
  ∧ fst (MountVolume host_without_mount demo_driver vol1 world_created)
    = Err "mount: exit status 32"
  ∧ files (MountVolume host_without_mount demo_driver vol1 world_created).2
    = files world_created.
Proof.
  assert (stored_volume demo_driver world_created "vol1"
          = Some (QuobyteVolume.Build "vol1" "id-vol1" "" "" "root" "nfsnobody" "vol1" "BASE"))
    as Hs by (vm_compute; reflexivity).
  split; [exact Hs|].
  destruct (C7_mount_failure_keeps_record host_without_mount demo_driver vol1 world_created
              _ _ _ Hs (surjective_pairing _)) as (answer & Hin & Ha).
  vm_compute in Hin.
  destruct Hin as [Hin|[Hin|[Hin|[Hin|[Hin|[]]]]]]; try discriminate Hin.
  injection Hin as <-. destruct (Ha _ eq_refl) as (Hr & Hf & _).
  exact (conj Hr Hf).
Defined.

(** ** GetVolumeInfo after create, mount and unmount *)

(** C8. After a successful [CreateVolume] of [n], [GetVolumeInfo] of [n]
    reports an empty mount point; after a successful [MountVolume]
    returning [p] it reports [p]; after a successful [UmountVolume] it
    reports an empty mount point again.  For mount and unmount the records
    of the store carry the name they are filed under, which holds of every
    store the driver has written ([store_wf_empty], [CreateVolume_wf],
    [MountVolume_wf], [UmountVolume_wf], [DeleteVolume_wf]). *)
Theorem C8_round_trip h d n opts :
  (∀ w w1, CreateVolume h d (Request.Build n opts) w = (Ok tt, w1) →
           reported_mount_point d n w1 = Some "")
  ∧ (∀ w w1 p, store_wf d w →
           MountVolume h d (Request.Build n opts) w = (Ok p, w1) →
           reported_mount_point d n w1 = Some p)
  ∧ (∀ w w1, store_wf d w →
           UmountVolume h d (Request.Build n opts) w = (Ok tt, w1) →
           reported_mount_point d n w1 = Some "").
Proof.
  split; [|split].
  - intros w w1 (key & id & Hk & _ & Hf)%CreateVolume_ok_inv. cbn [Request.Name] in *.
    erewrite GetVolumeInfo_reports; [|done|rewrite Hf; apply lookup_insert_eq]. done.
  - intros w w1 p Hwf (evs & _ & _ & _ & v & key & Hs & Hk & Hf)%MountVolume_spec.
    cbn [Request.Name] in *. rewrite (Hwf n v Hs) in Hk.
    erewrite GetVolumeInfo_reports; [|done|rewrite Hf; apply lookup_insert_eq]. done.
  - intros w w1 Hwf (v & key & Hs & Hk & Hf)%UmountVolume_spec.
    cbn [Request.Name] in *. rewrite (Hwf n v Hs) in Hk.
    erewrite GetVolumeInfo_reports; [|done|rewrite Hf; apply lookup_insert_eq]. done.
Qed.
Lemma world_created_wf : store_wf demo_driver world_created.
Proof.
  apply (CreateVolume_wf demo_host demo_driver vol1 empty_world (Ok tt));
    [vm_compute; reflexivity|]. by apply store_wf_empty.
Qed.

Lemma world_mounted_wf : store_wf demo_driver world_mounted.
Proof.
  apply (MountVolume_wf demo_host demo_driver vol1 world_created
           (Ok "/var/lib/convoy/quobyte/mounts/vol1"));
    [vm_compute; reflexivity|]. apply world_created_wf.
Qed.

Lemma world_at_restart_wf : store_wf demo_driver world_at_restart.
Proof.
  apply (CreateVolume_wf demo_host demo_driver vol2 world_mounted (Ok tt));
    [vm_compute; reflexivity|]. apply world_mounted_wf.
Qed.

Lemma C8_witness :
  reported_mount_point demo_driver "vol1" world_created = Some ""
  ∧ reported_mount_point demo_driver "vol1" world_mounted
    = Some "/var/lib/convoy/quobyte/mounts/vol1"
  ∧ reported_mount_point demo_driver "vol1" world_unmounted = Some "".
Proof.
  destruct (C8_round_trip demo_host demo_driver "vol1" ∅) as (Hc & Hm & Hu).
  split; [|split].
  - apply (Hc empty_world). vm_compute. reflexivity.
  - apply (Hm world_created); [apply world_created_wf|]. vm_compute. reflexivity.
  - apply (Hu world_mounted); [apply world_mounted_wf|]. vm_compute. reflexivity.
Defined.

(** ** Startup *)

(** C6. When [Init] returns a driver, and the records of the store carry
    the name they are filed under, then during the call the Mount operation
    was invoked exactly once for every volume whose record has a mount
    point and not at all for any other name, every such invocation had
    empty options, no step of the run failed (no listing, load, mount or
    write), and every file of the volume naming scheme held a record that
    loads.  So a failure of the enumeration, of a load or of a mount leaves
    [Init] without a driver to return. *)
Theorem C6_recovery_remounts h root config w d w' :
  Init h root config w = (Ok d, w') →
  store_wf d w →
  (∀ n, count (is_mount_call n) (events_of w w') = if mounted d w n then 1 else 0)
  ∧ (∀ r, In (EvCall (CallMountVolume r)) (events_of w w') → Request.Options r = ∅)
  ∧ Forall (λ ev, failed ev = false) (events_of w w')
  ∧ (∀ id, is_Some (files w !! path_join (Device.Root (device d))
                      ((CFG_PREFIX +:+ VOLUME_CFG_PREFIX) +:+ id +:+ CFG_POSTFIX)) →
           is_Some (stored_volume d w id)).
Proof.
  intros (w0 & evs0 & Hf0 & Hl0 & Hc0 & Hok0 & E)%Init_ok_inv Hwf.
  unfold remountVolumes in E. unfold bind at 1 in E.
  destruct (ListConfigIDs _ _ _ _ w0) as [[ids|e] w1] eqn:El; [|discriminate].
  pose proof El as (Hf1 & Hl1 & Hnd & Hin)%ListConfigIDs_spec.
  apply remountVolumes_loop_spec in E as (evs & Hl & Hc & Hopts & Hok & Hall); [|done|].
  2: { intros n v _ Hs. apply Hwf. rewrite <- Hs. unfold stored_volume. by rewrite Hf1, Hf0. }
  rewrite (events_of_app w w' (evs ++ EvDisk (OpList (Device.Root (device d))
             (CFG_PREFIX +:+ VOLUME_CFG_PREFIX) CFG_POSTFIX) None :: evs0)%list).
  2: { rewrite Hl, Hl1, Hl0. by rewrite <- app_assoc. }
  assert (∀ n, mounted d w1 n = mounted d w n) as Hmm.
  { intros n. unfold mounted, stored_volume. by rewrite Hf1, Hf0. }
  split; [|split; [|split]].
  - intros n. rewrite count_app, Hc. cbn [count is_mount_call].
    rewrite is_mount_call_not_call by done. rewrite Hmm.
    destruct (mounted d w n) eqn:Hm.
    + rewrite bool_decide_eq_true_2; [done|].
      eapply (mounted_listed h d w0); [done|]. 
      unfold mounted, stored_volume in *. by rewrite Hf0.
    + by rewrite andb_false_r.
  - intros r [Hin'|[[=]|Hin']]%in_app_or; [by apply Hopts|].
    exfalso. rewrite Forall_forall in Hc0.
    specialize (Hc0 _ (proj2 (list_elem_of_In _ _) Hin')). done.
  - apply Forall_app. split; [done|]. by constructor.
  - intros id Hid. rewrite <- Hf0 in Hid. apply Hin, Hall in Hid.
    unfold stored_volume in *. by rewrite Hf1, Hf0 in Hid.
Qed.
Lemma C6_witness :
  mounted demo_driver world_at_restart "vol1" = true
  ∧ mounted demo_driver world_at_restart "vol2" = false
  ∧ count (is_mount_call "vol1")
      (events_of world_at_restart (Init demo_host demo_root demo_config world_at_restart).2) = 1
  ∧ count (is_mount_call "vol2")
      (events_of world_at_restart (Init demo_host demo_root demo_config world_at_restart).2) = 0.
Proof.
  split; [vm_compute; reflexivity|]. split; [vm_compute; reflexivity|].
  destruct (C6_recovery_remounts demo_host demo_root demo_config world_at_restart demo_driver
              (Init demo_host demo_root demo_config world_at_restart).2) as (Hc & _).
  - vm_compute. reflexivity.
  - apply world_at_restart_wf.
  - split; (etrans; [apply Hc|]); vm_compute; reflexivity.
Defined.

(** C1. [Init] never saves the configuration it builds.  When no
    configuration file exists before the call, none exists after it,
    whatever the bootstrap options and however the call ends, so the next
    start finds no record to load either.  The spec asks for the
    configuration to be persisted before Recovery. *)
Theorem C1_configuration_never_persisted h root config w r w' key :
  ConfigFile (Device.Build root "" "" "" "" 0) = Ok key →
  files w !! key = None →
  Init h root config w = (r, w') →
  files w' !! key = None
  ∧ fst (ObjectExists (Device.Build root "" "" "" "" 0) w') = Ok false.
Proof.
  intros Hk Ho E.
  assert (files w' !! key = None) as Hnone.
  { unfold Init in E. go_unfold in E. rewrite Hk in E. go_step in E. rewrite Ho in E.
    rewrite bool_decide_eq_false_2 in E by (by intros [? ?]). go_step in E.
    destruct (disk_fault h _ (OpMkdir root)) as [e|] eqn:Hf; [by simplify_eq|].
    go_step in E.
    destruct (check_required _ _) as [[]|e]; [|by simplify_eq]. go_step in E.
    destruct (check_registries _ _) as [[]|e]; [|by simplify_eq]. go_step in E.
    match type of E with context [remountVolumes h ?dr ?w0] =>
      destruct (remountVolumes h dr w0) as [r1 w1] eqn:Er;
      assert (files w1 !! key = None) as Hw1;
      [|by destruct r1 as [[]|e]; simplify_eq] end.
    unfold remountVolumes, ListConfigIDs in Er. go_unfold in Er.
    destruct (disk_fault h _ (OpList _ _ _)) as [e|]; [by simplify_eq|].
    go_step in Er.
    apply (remountVolumes_loop_frame _ _ key) in Er; [by rewrite Er|].
    intros n (_ & _ & Hkn)%blank_key. cbn [device Device.Root] in Hkn.
    cbn [ConfigFile Device_ops] in Hk. unfold Device_ConfigFile in Hk.
    cbn [Device.Root] in Hk. destruct (String.eqb root ""); [done|].
    injection Hk as <-. symmetry in Hkn. by apply volume_key_not_config in Hkn. }
  split; [done|]. go_unfold. rewrite Hk. go_step. rewrite Hnone.
  rewrite bool_decide_eq_false_2 by (by intros [? ?]). done.
Qed.
Lemma C1_witness :
  fst (Init demo_host demo_root demo_config empty_world) = Ok demo_driver
  ∧ files (Init demo_host demo_root demo_config empty_world).2
      !! path_join demo_root DRIVER_CONFIG_FILE = None
  ∧ fst (ObjectExists (Device.Build demo_root "" "" "" "" 0)
           (Init demo_host demo_root demo_config empty_world).2) = Ok false.
Proof.
  split; [vm_compute; reflexivity|].
  apply (C1_configuration_never_persisted demo_host demo_root demo_config empty_world
           (Init demo_host demo_root demo_config empty_world).1
           (Init demo_host demo_root demo_config empty_world).2).
  - vm_compute. reflexivity.
  - vm_compute. reflexivity.
  - apply surjective_pairing.
Defined.

(** ** The lock *)

(** C9, as the spec states it, fails: [GetVolumeInfo] takes the lock, and
    so does [ListVolume] through it, once for the one volume of this
    store. *)
Lemma C9_counterexample :
  ¬ (count is_lock
       (events_of world_created (GetVolumeInfo demo_driver "vol1" world_created).2) = 0)
  ∧ ¬ (count is_lock
         (events_of world_created (ListVolume demo_host demo_driver ∅ world_created).2) = 0).
Proof. split; vm_compute; discriminate. Qed.

(** C9, amended.  [MountPoint] takes no lock.  [GetVolumeInfo] takes the
    manager-wide lock on entry and holds it to its end, as [CreateVolume],
    [DeleteVolume], [MountVolume] and [UmountVolume] do.  [ListVolume]
    enumerates the volumes without the lock and then takes and releases it
    once for every [GetVolumeInfo] it makes. *)
Theorem C9_lock_discipline :
  (∀ d req w,
     Forall (λ ev, is_lock ev = false ∧ is_unlock ev = false)
            (events_of w (MountPoint d req w).2))
  ∧ (∀ d n w, held_throughout (CallGetVolumeInfo n) (events_of w (GetVolumeInfo d n w).2))
  ∧ (∀ h d opts w,
       ∃ rest err,
         events_of w (ListVolume h d opts w).2
         = (rest ++ [EvDisk (OpList (Device.Root (device d))
                               (CFG_PREFIX +:+ VOLUME_CFG_PREFIX) CFG_POSTFIX) err;
                     EvCall (CallListVolume opts)])%list
         ∧ count is_lock rest = count is_info_call rest)
  ∧ (∀ h d req w,
       held_throughout (CallCreateVolume req) (events_of w (CreateVolume h d req w).2)
       ∧ held_throughout (CallDeleteVolume req) (events_of w (DeleteVolume h d req w).2)
       ∧ held_throughout (CallMountVolume req) (events_of w (MountVolume h d req w).2)
       ∧ held_throughout (CallUmountVolume req) (events_of w (UmountVolume h d req w).2)).
Proof.
  split; [apply MountPoint_lock_free|]. split; [apply GetVolumeInfo_held|]. split.
  - intros h d opts w. unfold ListVolume, ListConfigIDs. go_unfold.
    destruct (disk_fault h _ _) as [e|] eqn:Hf.
    + exists [], (Some e). cbn [snd]. split; [by events|done].
    + go_step.
      match goal with |- context [ListVolume_loop d ?ids ?acc ?w0] =>
        destruct (ListVolume_loop_log d ids acc w0) as (evs & Hl & Hc);
        destruct (ListVolume_loop d ids acc w0) as [[m|e] w1] end;
        cbn [snd log] in *; exists evs, None; (split; [|done]);
        apply events_of_app; rewrite Hl; by rewrite <- app_assoc.
  - intros. repeat split.
    + apply CreateVolume_held. + apply DeleteVolume_held.
    + apply MountVolume_held. + apply UmountVolume_held.
Qed.

(** * Further properties of the driver *)

(** ** Init: the bootstrap options *)

Lemma lookup_set_default_ne k v (c : gmap string string) k' :
  k ≠ k' → set_default k v c !! k' = c !! k'.
Proof.
  intros Hne. unfold set_default. destruct (c !! k); [done|]. by rewrite lookup_insert_ne.
Qed.

Lemma go_index_set_default_eq k v (c : gmap string string) :
  go_index (set_default k v c) k = default v (c !! k).
Proof.
  unfold go_index, set_default. destruct (c !! k) as [x|] eqn:Hc.
  - by rewrite Hc.
  - by rewrite lookup_insert_eq.
Qed.

Lemma go_index_set_default_ne k v (c : gmap string string) k' :
  k ≠ k' → go_index (set_default k v c) k' = go_index c k'.
Proof. intros Hne. unfold go_index. by rewrite lookup_set_default_ne. Qed.

Lemma check_required_err config reqs e :
  check_required config reqs = Err e → e = "Missing required parameter: ".
Proof.
  induction reqs as [|req rest IH]; cbn [check_required]; [discriminate|].
  destruct (String.eqb_spec (go_index config req) "") as [->|_]; [|done].
  by intros [= <-].
Qed.

Lemma check_required_ok config reqs :
  check_required config reqs = Ok tt ↔ Forall (λ req, go_index config req ≠ "") reqs.
Proof.
  induction reqs as [|req rest IH]; cbn [check_required].
  - split; [constructor|done].
  - destruct (String.eqb_spec (go_index config req) "") as [He|Hne].
    + split; [discriminate|]. intros [? _]%Forall_cons. done.
    + rewrite IH. split; [by constructor|]. by intros [_ ?]%Forall_cons.
Qed.

Lemma check_registries_err h regs e :
  check_registries h regs = Err e →
  ∃ detail, e = "Invalid or unsolvable address: " +:+ detail.
Proof.
  induction regs as [|r rest IH]; cbn [check_registries]; [discriminate|].
  destruct (SplitHostPort h r) as [[host port]|e']; [|intros [= <-]; eauto].
  destruct (ValidNetworkAddr h host); cbn [negb]; [done|]. intros [= <-]. eauto.
Qed.

Lemma check_registries_ok h regs :
  check_registries h regs = Ok tt
  ↔ Forall (λ registry, ∃ host port, SplitHostPort h registry = Ok (host, port)
                                     ∧ ValidNetworkAddr h host = true) regs.
Proof.
  induction regs as [|r rest IH]; cbn [check_registries].
  - split; [constructor|done].
  - destruct (SplitHostPort h r) as [[host port]|e'] eqn:Hs.
    + destruct (ValidNetworkAddr h host) eqn:Hv; cbn [negb].
      * rewrite IH. split; [|by intros [_ ?]%Forall_cons].
        intros Hrest. constructor; [|done]. by exists host, port.
      * split; [discriminate|]. intros [(host' & port' & Heq & Hv') _]%Forall_cons.
        simplify_eq. congruence.
    + split; [discriminate|]. intros [(host' & port' & Heq & _) _]%Forall_cons.
      congruence.
Qed.

Lemma device_key root key :
  ConfigFile (Device.Build root "" "" "" "" 0) = Ok key →
  root ≠ "" ∧ key = path_join root DRIVER_CONFIG_FILE.
Proof.
  cbn. unfold Device_ConfigFile. cbn.
  destruct (String.eqb_spec root ""); [discriminate|]. by intros [= <-].
Qed.

(** What [Init] does when there is no configuration file. *)
Lemma Init_bootstrap h root config w key :
  ConfigFile (Device.Build root "" "" "" "" 0) = Ok key →
  files w !! key = None →
  let err := disk_fault h (EvStat key false :: log w) (OpMkdir root) in
  let w0 := mkWorld (files w) (EvDisk (OpMkdir root) err :: EvStat key false :: log w) in
  Init h root config w =
  match err with
  | Some e => (Err e, w0)
  | None =>
      match check_required config [QUOBYTE_API_URL; QUOBYTE_REGISTRIES] with
      | Err e => (Err e, w0)
      | Ok _ =>
          match check_registries h (split_on "," (go_index config QUOBYTE_REGISTRIES)) with
          | Err e => (Err e, w0)
          | Ok _ =>
              match remountVolumes h (bootstrap_driver h root config) w0 with
              | (Ok _, w1) => (Ok (bootstrap_driver h root config), w1)
              | (Err e, w1) => (Err e, w1)
              end
          end
      end
  end.
Proof.
  intros Hk Ho. cbv zeta. unfold Init. go_unfold. rewrite Hk. go_step. rewrite Ho.
  rewrite bool_decide_eq_false_2 by (by intros [? ?]). go_step.
  destruct (disk_fault h _ (OpMkdir root)) as [e|]; [done|]. go_step.
  destruct (check_required _ _) as [[]|e]; [|done]. go_step.
  destruct (check_registries _ _) as [[]|e]; [|done]. go_step.
  unfold bootstrap_driver.
  repeat first [ rewrite go_index_set_default_eq
               | rewrite go_index_set_default_ne by done
               | rewrite lookup_set_default_ne by done ].
  reflexivity.
Qed.

(** X1. Without a configuration file, [Init] on options that lack the API
    endpoint or the registries fails right after the mkdir of the root
    (with the error of the mkdir, if that failed): nothing is listed or
    mounted and the store is not touched.  The message ends in the value of
    the missing option, which is empty, so it never names the option. *)
Theorem X1_init_missing_required_option h root config w :
  root ≠ "" →
  files w !! path_join root DRIVER_CONFIG_FILE = None →
  go_index config QUOBYTE_API_URL = "" ∨ go_index config QUOBYTE_REGISTRIES = "" →
  let key := path_join root DRIVER_CONFIG_FILE in
  let err := disk_fault h (EvStat key false :: log w) (OpMkdir root) in
  Init h root config w
  = (Err (default "Missing required parameter: " err),
     mkWorld (files w) (EvDisk (OpMkdir root) err :: EvStat key false :: log w)).
Proof.
  intros Hroot Ho Hmiss. cbv zeta.
  assert (ConfigFile (Device.Build root "" "" "" "" 0)
          = Ok (path_join root DRIVER_CONFIG_FILE)) as Hk.
  { cbn. unfold Device_ConfigFile. cbn. by destruct (String.eqb_spec root ""). }
  rewrite (Init_bootstrap h root config w _ Hk Ho). cbv zeta.
  destruct (disk_fault h _ (OpMkdir root)) as [e|]; [done|].
  destruct (check_required config _) as [[]|e] eqn:Hc.
  - apply check_required_ok in Hc. apply Forall_cons in Hc as [Hu Hc].
    apply Forall_cons in Hc as [Hr _]. by destruct Hmiss.
  - apply check_required_err in Hc as ->. done.
Qed.

Lemma X1_witness :
  Init demo_host demo_root config_without_url empty_world
  = (Err "Missing required parameter: ",
     mkWorld ∅ [EvDisk (OpMkdir demo_root) None;
                EvStat (path_join demo_root DRIVER_CONFIG_FILE) false]).
Proof.
  apply (X1_init_missing_required_option demo_host demo_root config_without_url empty_world).
  - vm_compute. discriminate.
  - vm_compute. reflexivity.
  - left. vm_compute. reflexivity.
Defined.

(** X2. Without a configuration file and with both required options set,
    [Init] fails as soon as one entry of the comma-separated registries
    does not split into host and port or does not resolve: the error says
    [Invalid or unsolvable address], nothing is listed or mounted and the
    store is not touched.  An empty entry, as a trailing comma leaves one,
    is checked like any other. *)
Theorem X2_init_invalid_registry h root config w :
  root ≠ "" →
  files w !! path_join root DRIVER_CONFIG_FILE = None →
  go_index config QUOBYTE_API_URL ≠ "" →
  go_index config QUOBYTE_REGISTRIES ≠ "" →
  ¬ registries_valid h (go_index config QUOBYTE_REGISTRIES) →
  let key := path_join root DRIVER_CONFIG_FILE in
  let err := disk_fault h (EvStat key false :: log w) (OpMkdir root) in
  ∃ e, Init h root config w
       = (Err e, mkWorld (files w) (EvDisk (OpMkdir root) err :: EvStat key false :: log w))
    ∧ (err = None → ∃ detail, e = "Invalid or unsolvable address: " +:+ detail).
Proof.
  intros Hroot Ho Hu Hr Hbad. cbv zeta.
  assert (ConfigFile (Device.Build root "" "" "" "" 0)
          = Ok (path_join root DRIVER_CONFIG_FILE)) as Hk.
  { cbn. unfold Device_ConfigFile. cbn. by destruct (String.eqb_spec root ""). }
  rewrite (Init_bootstrap h root config w _ Hk Ho). cbv zeta.
  destruct (disk_fault h _ (OpMkdir root)) as [e|]; [by exists e|].
  assert (check_required config [QUOBYTE_API_URL; QUOBYTE_REGISTRIES] = Ok tt) as ->.
  { apply check_required_ok. by repeat constructor. }
  destruct (check_registries h _) as [[]|e] eqn:Hc.
  - by apply check_registries_ok in Hc.
  - exists e. split; [done|]. intros _. by eapply check_registries_err.
Qed.

Lemma X2_witness :
  ¬ registries_valid host_without_dns (go_index demo_config QUOBYTE_REGISTRIES)
  ∧ Init host_without_dns demo_root demo_config empty_world
    = (Err "Invalid or unsolvable address: quobyte-1:7861",
       mkWorld ∅ [EvDisk (OpMkdir demo_root) None;
                  EvStat (path_join demo_root DRIVER_CONFIG_FILE) false]).
Proof.
  assert (¬ registries_valid host_without_dns (go_index demo_config QUOBYTE_REGISTRIES))
    as Hbad.
  { intros H. vm_compute in H. apply Forall_cons in H as [(host & port & Hs & Hv) _].
    discriminate Hv. }
  split; [exact Hbad|].
  destruct (X2_init_invalid_registry host_without_dns demo_root demo_config empty_world)
    as (e & E & _); [vm_compute; discriminate|vm_compute; reflexivity|
                     vm_compute; discriminate|vm_compute; discriminate|exact Hbad|].
  rewrite E. vm_compute in E. injection E as <-. vm_compute. reflexivity.
Defined.

(** X3. When [Init] returns a driver and there was no configuration file,
    the required options were set and every registry was valid, and the
    driver is the one built from the options: root and registries as
    given, owner, group and volume configuration from the options where
    the key is present, even with an empty value, and [root], [nfsnobody]
    and [BASE] where it is absent; the client gets [admin] and [quobyte]
    for absent credentials.  [Info] then reports root, registries, owner
    and volume configuration, and not the group. *)
Theorem X3_init_bootstrap_defaults h root config w d w' :
  files w !! path_join root DRIVER_CONFIG_FILE = None →
  Init h root config w = (Ok d, w') →
  d = bootstrap_driver h root config
  ∧ go_index config QUOBYTE_API_URL ≠ ""
  ∧ go_index config QUOBYTE_REGISTRIES ≠ ""
  ∧ registries_valid h (go_index config QUOBYTE_REGISTRIES)
  ∧ ∃ info, Info d = Ok info
      ∧ info !! "Root" = Some root
      ∧ info !! "Registries" = Some (go_index config QUOBYTE_REGISTRIES)
      ∧ info !! "User" = Some (default "root" (config !! QUOBYTE_DEFAULT_USER))
      ∧ info !! "VolumeConfig" = Some (default "BASE" (config !! QUOBYTE_DEFAULT_VOLUME_CONFIG))
      ∧ info !! "Group" = None.
Proof.
  intros Ho E.
  destruct (ConfigFile (Device.Build root "" "" "" "" 0)) as [key|e] eqn:Hk.
  2: { unfold Init in E. go_unfold in E. rewrite Hk in E. discriminate. }
  pose proof Hk as [_ ->]%device_key.
  rewrite (Init_bootstrap h root config w _ Hk Ho) in E. cbv zeta in E.
  destruct (disk_fault h _ (OpMkdir root)) as [e|]; [discriminate|].
  destruct (check_required config _) as [[]|e] eqn:Hc; [|discriminate].
  destruct (check_registries h _) as [[]|e] eqn:Hg; [|discriminate].
  destruct (remountVolumes h _ _) as [[[]|e] w1]; [|discriminate].
  injection E as <- <-.
  apply check_required_ok in Hc. apply Forall_cons in Hc as [Hu Hc].
  apply Forall_cons in Hc as [Hr _]. apply check_registries_ok in Hg.
  split; [done|]. split; [done|]. split; [done|]. split; [done|].
  eexists. split; [reflexivity|]. cbn [bootstrap_driver device Device.Root Device.Registries
    Device.User Device.VolumeConfig].
  repeat split.
Qed.

Lemma X3_witness :
  fst (Init demo_host demo_root config_empty_user empty_world)
  = Ok (bootstrap_driver demo_host demo_root config_empty_user)
  ∧ Device.User (device (bootstrap_driver demo_host demo_root config_empty_user)) = ""
  ∧ Device.Group (device (bootstrap_driver demo_host demo_root config_empty_user)) = "nfsnobody".
Proof.
  destruct (Init demo_host demo_root config_empty_user empty_world) as [[d|e] w'] eqn:E;
    [|vm_compute in E; discriminate E].
  destruct (X3_init_bootstrap_defaults demo_host demo_root config_empty_user empty_world d w'
              ltac:(vm_compute; reflexivity) E) as (-> & _).
  split; [reflexivity|]. split; vm_compute; reflexivity.
Defined.

(** X4. [Init] on the empty root fails with the error of
    [Device.ConfigFile] before it looks at the disk or at the options. *)
Theorem X4_init_empty_root h config w :
  Init h "" config w = (Err "BUG: Invalid empty device config path", w).
Proof. reflexivity. Qed.

(** X5. When the configuration file exists, [Init] takes the device from
    it as it is, the root included, and checks none of the options: no
    mkdir, no required option, no registry, no default for the
    credentials, which are read from the options as given.  It fails only
    if recovery fails, or if the file holds no configuration. *)
Theorem X5_init_existing_configuration h root config w o :
  root ≠ "" →
  files w !! path_join root DRIVER_CONFIG_FILE = Some o →
  let key := path_join root DRIVER_CONFIG_FILE in
  match o with
  | ObjDevice dv =>
      let driver := mkDriver (NewQuobyteClient h (go_index config QUOBYTE_API_URL)
                                (go_index config QUOBYTE_API_USER)
                                (go_index config QUOBYTE_API_PASSWORD)) dv in
      let run := remountVolumes h driver
                   (mkWorld (files w) (EvRead key None :: EvStat key true :: log w)) in
      Init h root config w
      = (match run.1 with Ok _ => Ok driver | Err e => Err e end, run.2)
  | ObjVolume _ =>
      Init h root config w
      = (Err (CorruptError key),
         mkWorld (files w) (EvRead key (Some (CorruptError key)) :: EvStat key true :: log w))
  end.
Proof.
  intros Hroot Ho. cbv zeta.
  assert (ConfigFile (Device.Build root "" "" "" "" 0)
          = Ok (path_join root DRIVER_CONFIG_FILE)) as Hk.
  { cbn. unfold Device_ConfigFile. cbn. by destruct (String.eqb_spec root ""). }
  unfold Init. go_unfold. rewrite Hk. go_step. rewrite Ho.
  rewrite bool_decide_eq_true_2 by eauto. go_step. rewrite Ho.
  destruct o as [dv|v]; cbn [unmarshal Device_ops]; go_step; [|done].
  destruct (remountVolumes h _ _) as [[[]|e] w1]; done.
Qed.

Lemma X5_witness :
  Init demo_host demo_root ∅ world_configured
  = (Ok (mkDriver demo_client demo_device),
     mkWorld (files world_configured)
       [EvDisk (OpList demo_root (CFG_PREFIX +:+ VOLUME_CFG_PREFIX) CFG_POSTFIX) None;
        EvRead (path_join demo_root DRIVER_CONFIG_FILE) None;
        EvStat (path_join demo_root DRIVER_CONFIG_FILE) true]).
Proof.
  pose proof (X5_init_existing_configuration demo_host demo_root ∅ world_configured
                (ObjDevice demo_device) ltac:(vm_compute; discriminate)
                ltac:(vm_compute; reflexivity)) as E.
  cbv zeta beta iota in E. rewrite E. vm_compute. reflexivity.
Defined.

(** ** Operations on a volume whose record does not load *)

Lemma load_failure_cases d n w e :
  fst (ObjectLoad (blankVolume d n) w) = Err e →
  ConfigFile (blankVolume d n) = Err e
  ∨ ∃ key, ConfigFile (blankVolume d n) = Ok key
      ∧ ((files w !! key = None ∧ e = NotFound key)
         ∨ (∃ dv, files w !! key = Some (ObjDevice dv) ∧ e = CorruptError key)).
Proof.
  go_unfold. destruct (ConfigFile (blankVolume d n)) as [key|e'] eqn:Hk.
  - go_step. intros E. right. exists key. split; [done|].
    destruct (files w !! key) as [[dv|v]|] eqn:Ho; vol_simpl in E; go_step in E;
      cbn [fst] in E; simplify_eq; eauto.
  - cbn [fst]. intros [= <-]. by left.
Qed.

(** X7. When the record of the named volume does not load (the name or the
    root is empty, there is no file, or the file holds no volume),
    [DeleteVolume], [MountVolume], [UmountVolume], [MountPoint] and
    [GetVolumeInfo] all return the error of the load; no file is changed
    and neither the disk, the cluster nor the mount commands are asked for
    anything. *)
Theorem X7_unloadable_record_rejected h d req w e :
  fst (ObjectLoad (blankVolume d (Request.Name req)) w) = Err e →
  fails_without_effect e w (DeleteVolume h d req w)
  ∧ fails_without_effect e w (MountVolume h d req w)
  ∧ fails_without_effect e w (UmountVolume h d req w)
  ∧ fails_without_effect e w (MountPoint d req w)
  ∧ fails_without_effect e w (GetVolumeInfo d (Request.Name req) w).
Proof.
  intros [Hk|(key & Hk & [[Ho ->]|(dv & Ho & ->)])]%load_failure_cases;
    unfold fails_without_effect; go_unfold; rewrite Hk; go_step; rewrite ?Ho;
    vol_simpl; go_step; cbn [fst snd files];
    repeat split; unfold only_reads; events; repeat constructor.
Qed.

Lemma X7_witness :
  fst (GetVolumeInfo demo_driver "vol2" world_created)
  = Err (NotFound "/var/lib/convoy/quobyte/quobyte_volume_vol2.json")
  ∧ files (DeleteVolume demo_host demo_driver vol2 world_created).2 = files world_created.
Proof.
  destruct (X7_unloadable_record_rejected demo_host demo_driver vol2 world_created
              (NotFound "/var/lib/convoy/quobyte/quobyte_volume_vol2.json")
              ltac:(vm_compute; reflexivity))
    as ((_ & Hf & _) & _ & _ & _ & (Hr & _)).
  exact (conj Hr Hf).
Defined.

(** X8. The empty volume name is refused by every operation that takes a
    name, [CreateVolume] included, with the error [empty volume] of
    [QuobyteVolume.ConfigFile], before the disk, the cluster or the mount
    commands are asked for anything. *)
Theorem X8_empty_name_rejected h d opts w :
  let req := Request.Build "" opts in
  fails_without_effect "empty volume" w (CreateVolume h d req w)
  ∧ fails_without_effect "empty volume" w (DeleteVolume h d req w)
  ∧ fails_without_effect "empty volume" w (MountVolume h d req w)
  ∧ fails_without_effect "empty volume" w (UmountVolume h d req w)
  ∧ fails_without_effect "empty volume" w (MountPoint d req w)
  ∧ fails_without_effect "empty volume" w (GetVolumeInfo d "" w).
Proof.
  cbv zeta. unfold fails_without_effect. go_unfold. cbn [Request.Name].
  assert (ConfigFile (blankVolume d "") = Err "empty volume") as -> by reflexivity.
  go_step. cbn [fst snd files].
  repeat split; unfold only_reads; events; repeat constructor.
Qed.

(** ** DeleteVolume and UmountVolume *)

(** X6. A delete whose [reference-only] flag is false (spelled out, absent
    or not a boolean) of an unmounted volume asks the cluster once to
    delete the stored remote id, before it touches the record.  If the
    cluster refuses, that error is the result and the record stays; only
    after the cluster agreed is the file of the record removed. *)
Theorem X6_delete_deprovisions_first h d req w v r w' :
  stored_volume d w (Request.Name req) = Some v →
  QuobyteVolume.Name v = Request.Name req →
  QuobyteVolume.MountPoint v = "" →
  fst (ParseBool (go_index (Request.Options req) OPT_REFERENCE_ONLY)) = false →
  DeleteVolume h d req w = (r, w') →
  count is_remote_delete (events_of w w') = 1
  ∧ ∃ err, In (EvRemoteDelete (QuobyteVolume.ID v) err) (events_of w w')
      ∧ match err with
        | Some e => r = Err e ∧ files w' = files w
                    ∧ count is_store_change (events_of w w') = 0
        | None =>
            ∃ key derr, ConfigFile (blankVolume d (Request.Name req)) = Ok key
              ∧ events_of w w'
                = [EvUnlock; EvDisk (OpRemove key) derr;
                   EvRemoteDelete (QuobyteVolume.ID v) None; EvRead key None; EvLock;
                   EvCall (CallDeleteVolume req)]
              ∧ match derr with
                | None => r = Ok tt ∧ files w' = delete key (files w)
                | Some e => r = Err e ∧ files w' = files w
                end
        end.
Proof.
  intros Hs Hn Hm Hp E.
  apply stored_volume_inv in Hs as (key & Hk & Ho).
  go_unfold in E. rewrite Hk in E. go_step in E. rewrite Ho in E.
  vol_simpl in E. go_step in E. vol_simpl in E.
  rewrite Hm, Hp in E. cbn [String.eqb negb] in E. go_step in E.
  match type of E with context [QuobyteClient.DeleteVolume ?c ?l ?i] =>
    destruct (QuobyteClient.DeleteVolume c l i) as [e|] eqn:Hr end.
  - simplify_eq. split; [in_events|]. exists (Some e). split; [in_events|].
    split; [done|]. split; [done|]. in_events.
  - go_step in E.
    match type of E with context [ConfigFile ?v] =>
      rewrite (ConfigFile_same v (blankVolume d (Request.Name req)) Hn eq_refl), Hk in E end.
    go_step in E.
    match type of E with context [disk_fault h ?l ?op] =>
      destruct (disk_fault h l op) as [e|] eqn:Hf end; simplify_eq.
    + split; [in_events|]. exists None. split; [in_events|].
      exists key, (Some e). split; [done|]. split; [by events|done].
    + split; [in_events|]. exists None. split; [in_events|].
      exists key, None. split; [done|]. split; [by events|done].
Qed.

Lemma X6_witness :
  fst (DeleteVolume demo_host unreachable_driver vol1_flag_false world_created)
  = Err "quobyte: connection refused"
  ∧ files (DeleteVolume demo_host unreachable_driver vol1_flag_false world_created).2
    = files world_created.
Proof.
  destruct (X6_delete_deprovisions_first demo_host unreachable_driver vol1_flag_false
              world_created
              (QuobyteVolume.Build "vol1" "id-vol1" "" "" "root" "nfsnobody" "vol1" "BASE")
              _ _ ltac:(vm_compute; reflexivity) eq_refl eq_refl
              ltac:(vm_compute; reflexivity) (surjective_pairing _))
    as (_ & err & Hin & Ha).
  vm_compute in Hin.
  destruct Hin as [Hin|[Hin|[Hin|[Hin|[Hin|[]]]]]]; try discriminate Hin.
  injection Hin as <-. exact (conj (proj1 Ha) (proj1 (proj2 Ha))).
Defined.

(** X9. When the unmount command fails, [UmountVolume] returns its error
    and writes nothing: the record keeps its mount point. *)
Theorem X9_umount_failure_keeps_record h d req w v r w' :
  stored_volume d w (Request.Name req) = Some v →
  UmountVolume h d req w = (r, w') →
  ∃ err,
    In (EvUmount (QuobyteVolume.with_configPath (Device.Root (device d)) v) err)
       (events_of w w')
    ∧ ∀ e, err = Some e →
        r = Err e ∧ files w' = files w
        ∧ stored_volume d w' (Request.Name req) = Some v
        ∧ count is_store_change (events_of w w') = 0.
Proof.
  intros Hs E. pose proof Hs as Hs'. apply stored_volume_inv in Hs as (key & Hk & Ho).
  go_unfold in E. rewrite Hk in E. go_step in E. rewrite Ho in E.
  vol_simpl in E. go_step in E. vol_simpl in E.
  match type of E with context [umount_exec h ?l ?a] =>
    exists (umount_exec h l a);
    destruct (umount_exec h l a) as [e|] eqn:Hr end.
  - simplify_eq. split; [in_events|]. intros ? [= <-]. repeat split; in_events.
  - go_step in E. repeat case_match; simplify_eq; (split; [in_events|discriminate]).
Qed.

Lemma X9_witness :
  mounted demo_driver world_mounted "vol1" = true
  ∧ fst (UmountVolume host_without_umount demo_driver vol1 world_mounted)
    = Err "umount: target is busy"
  ∧ mounted demo_driver (UmountVolume host_without_umount demo_driver vol1 world_mounted).2
      "vol1" = true.
Proof.
  split; [vm_compute; reflexivity|].
  edestruct (X9_umount_failure_keeps_record host_without_umount demo_driver vol1 world_mounted)
    as (err & Hin & Ha); [vm_compute; reflexivity|apply surjective_pairing|].
  vm_compute in Hin.
  destruct Hin as [Hin|[Hin|[Hin|[Hin|[Hin|[]]]]]]; try discriminate Hin.
  injection Hin as <-. destruct (Ha _ eq_refl) as (Hr & _ & Hs & _).
  split; [exact Hr|]. unfold mounted. change (Request.Name vol1) with "vol1" in Hs.
  rewrite Hs. reflexivity.
Defined.

(** ** What the operations do to the store *)

Lemma DeleteVolume_spec h d req w r w' :
  DeleteVolume h d req w = (r, w') →
  match r with
  | Ok _ =>
      ∃ v key, stored_volume d w (Request.Name req) = Some v
        ∧ QuobyteVolume.MountPoint v = ""
        ∧ ConfigFile (blankVolume d (QuobyteVolume.Name v)) = Ok key
        ∧ files w' = delete key (files w)
  | Err _ => files w' = files w
  end.
Proof.
  intros E. go_unfold in E.
  destruct (ConfigFile (blankVolume d (Request.Name req))) as [key|e] eqn:Hk.
  2: { by simplify_eq. }
  go_step in E. destruct (files w !! key) as [[dv|v]|] eqn:Ho; vol_simpl in E; go_step in E.
  1, 3: by simplify_eq.
  vol_simpl in E.
  destruct (String.eqb_spec (QuobyteVolume.MountPoint v) "") as [Hm|Hm]; cbn [negb] in E.
  2: { by simplify_eq. }
  rewrite (blankVolume_key_name d (QuobyteVolume.Name v)
             (QuobyteVolume.with_configPath (Device.Root (device d)) v) eq_refl eq_refl) in E.
  destruct (ConfigFile (blankVolume d (QuobyteVolume.Name v))) as [key2|e2] eqn:Hk2;
    destruct (negb _); go_step in E;
    repeat (match type of E with
            | context [QuobyteClient.DeleteVolume ?c ?l ?i] =>
                destruct (QuobyteClient.DeleteVolume c l i)
            | context [disk_fault h ?l ?op] => destruct (disk_fault h l op)
            end; go_step in E);
    simplify_eq; try done;
    exists v, key2; (split; [by eapply stored_key|done]).
Qed.


(** X10. [MountPoint] and [GetVolumeInfo] read the same record: one returns
    the mount point [p] exactly when the other reports [p] under
    [MountPoint], and one fails with [e] exactly when the other does. *)
Theorem X10_mount_point_agrees_with_info d req w :
  (∀ p, fst (MountPoint d req w) = Ok p
        ↔ reported_mount_point d (Request.Name req) w = Some p)
  ∧ (∀ e, fst (MountPoint d req w) = Err e
          ↔ fst (GetVolumeInfo d (Request.Name req) w) = Err e).
Proof.
  unfold reported_mount_point. go_unfold.
  destruct (ConfigFile (blankVolume d (Request.Name req))) as [key|e0]; go_step.
  2: { cbn [fst]. split; intros; (split; intros; congruence). }
  destruct (files w !! key) as [[dv|v]|]; vol_simpl; go_step; cbn [fst].
  1, 3: split; intros; (split; intros; congruence).
  vol_simpl. rewrite lookup_insert_ne by done. rewrite lookup_insert_ne by done.
  rewrite lookup_insert_eq. split; intros; (split; intros; congruence).
Qed.



(** The loop of [remountVolumes] keeps the records under their names. *)
Lemma remountVolumes_loop_wf h d ids : ∀ w,
  store_wf d w → store_wf d (remountVolumes_loop h d ids w).2.
Proof.
  induction ids as [|id rest IH]; intros w Hwf; [done|].
  cbn [remountVolumes_loop]. unfold bind at 1.
  destruct (ObjectLoad (blankVolume d id) w) as [[vol|e] w1] eqn:El;
    apply ObjectLoad_volume_files in El.
  2: { cbn [snd]. by apply (store_wf_same d w). }
  assert (store_wf d w1) as Hwf1 by by apply (store_wf_same d w).
  destruct (String.eqb _ _); [by apply IH|].
  unfold bind at 1.
  destruct (MountVolume h d _ w1) as [[p|e] w2] eqn:Em;
    apply MountVolume_wf in Em; [|done|cbn [snd]; auto|done].
  by apply IH.
Qed.

(** X14. No operation of the driver breaks the rule that a volume record
    lies under the key of the name it carries: create, delete, mount and
    unmount keep it whatever their outcome, and so does the recovery run of
    [Init]. *)
Theorem X14_record_names_invariant h d req w :
  store_wf d w →
  store_wf d (CreateVolume h d req w).2
  ∧ store_wf d (DeleteVolume h d req w).2
  ∧ store_wf d (MountVolume h d req w).2
  ∧ store_wf d (UmountVolume h d req w).2
  ∧ store_wf d (remountVolumes h d w).2.
Proof.
  intros Hwf. repeat split.
  - by eapply CreateVolume_wf; [apply surjective_pairing|].
  - by eapply DeleteVolume_wf; [apply surjective_pairing|].
  - by eapply MountVolume_wf; [apply surjective_pairing|].
  - by eapply UmountVolume_wf; [apply surjective_pairing|].
  - unfold remountVolumes, ListConfigIDs. go_unfold.
    destruct (disk_fault h _ _); [done|]. go_step.
    by apply remountVolumes_loop_wf.
Qed.

Lemma X14_witness :
  store_wf demo_driver (remountVolumes demo_host demo_driver world_at_restart).2.
Proof.
  exact (proj2 (proj2 (proj2 (proj2
    (X14_record_names_invariant demo_host demo_driver vol1 world_at_restart
       world_at_restart_wf))))).
Defined.

(** X15. After a successful [DeleteVolume] the volume is gone: it has no
    record, [ObjectExists] says so, and a second [DeleteVolume] and
    [GetVolumeInfo] fail with the error of the load. *)
Theorem X15_deleted_volume_is_gone h d req w w1 :
  store_wf d w →
  DeleteVolume h d req w = (Ok tt, w1) →
  stored_volume d w1 (Request.Name req) = None
  ∧ ∃ key, ConfigFile (blankVolume d (Request.Name req)) = Ok key
      ∧ files w1 !! key = None
      ∧ fst (ObjectExists (blankVolume d (Request.Name req)) w1) = Ok false
      ∧ (∀ h', fst (DeleteVolume h' d req w1) = Err (NotFound key))
      ∧ fst (GetVolumeInfo d (Request.Name req) w1) = Err (NotFound key).
Proof.
  intros Hwf (v & key & Hs & _ & Hk & Hf)%DeleteVolume_spec.
  rewrite (Hwf _ _ Hs) in Hk.
  assert (files w1 !! key = None) as Hnone by (rewrite Hf; apply lookup_delete_eq).
  split; [unfold stored_volume; by rewrite Hk, Hnone|].
  exists key. split; [done|]. split; [done|].
  go_unfold. rewrite Hk. go_step. rewrite Hnone.
  rewrite bool_decide_eq_false_2 by (by intros [? ?]). done.
Qed.

Lemma X15_witness :
  DeleteVolume demo_host demo_driver vol1_reference_only world_created = (Ok tt, world_deleted)
  ∧ stored_volume demo_driver world_deleted "vol1" = None
  ∧ fst (DeleteVolume demo_host demo_driver vol1_reference_only world_deleted)
    = Err (NotFound "/var/lib/convoy/quobyte/quobyte_volume_vol1.json").
Proof.
  assert (DeleteVolume demo_host demo_driver vol1_reference_only world_created
          = (Ok tt, world_deleted)) as E by (vm_compute; reflexivity).
  split; [exact E|].
  destruct (X15_deleted_volume_is_gone demo_host demo_driver vol1_reference_only
              world_created world_deleted world_created_wf E)
    as (Hs & key & Hk & _ & _ & Hd & _).
  split; [exact Hs|]. vm_compute in Hk. injection Hk as <-. exact (Hd demo_host).
Defined.

(** ** GetVolumeInfo and ListVolume *)

(** What a call of [GetVolumeInfo] returns and logs. *)
Lemma GetVolumeInfo_spec d n w r w' :
  GetVolumeInfo d n w = (r, w') →
  files w' = files w
  ∧ (∃ evs, log w' = (evs ++ log w)%list ∧ only_reads evs)
  ∧ match r with
    | Ok info => ∃ v, stored_volume d w n = Some v ∧ info = volume_info n v
    | Err _ => stored_volume d w n = None
    end.
Proof.
  intros E. go_unfold in E. unfold stored_volume.
  destruct (ConfigFile (blankVolume d n)) as [key|e]; go_step in E.
  2: { simplify_eq. split; [done|]. split; [|done]. cbn [log].
       exists [EvUnlock; EvLock; EvCall (CallGetVolumeInfo n)]. split; [done|].
       repeat constructor. }
  destruct (files w !! key) as [[dv|v]|]; vol_simpl in E; go_step in E; simplify_eq;
    (split; [done|]); (split; [cbn [log]; eexists [_; _; _; _]; split; [reflexivity|];
                               repeat constructor|]); [done| |done].
  exists v. split; [done|]. vol_simpl. reflexivity.
Qed.

Lemma ListVolume_loop_spec d ids : ∀ acc w r w',
  ListVolume_loop d ids acc w = (r, w') →
  files w' = files w
  ∧ (∃ evs, log w' = (evs ++ log w)%list ∧ only_reads evs)
  ∧ ∀ m, r = Ok m →
      (∀ id, id ∈ ids → is_Some (stored_volume d w id))
      ∧ ∀ id, m !! id = if bool_decide (id ∈ ids)
                         then volume_info id <$> stored_volume d w id
                         else acc !! id.
Proof.
  induction ids as [|id rest IH]; intros acc w r w' E.
  - cbn in E. injection E as <- <-. split; [done|]. split.
    { exists []. split; [done|constructor]. }
    intros m [= <-]. split; [intros id Hin; by apply not_elem_of_nil in Hin|].
    intros id. rewrite bool_decide_eq_false_2; [done|]. apply not_elem_of_nil.
  - cbn [ListVolume_loop] in E. unfold bind at 1 in E.
    destruct (GetVolumeInfo d id w) as [[info|e] w1] eqn:Eg;
      apply GetVolumeInfo_spec in Eg as (Hf1 & (evs1 & Hl1 & Hr1) & Hinfo).
    2: { injection E as <- <-. split; [done|]. split; [by exists evs1|]. discriminate. }
    destruct Hinfo as (v & Hs & ->).
    apply IH in E as (Hf & (evs & Hl & Hr) & Hm).
    split; [by rewrite Hf|]. split.
    { exists (evs ++ evs1)%list. split; [by rewrite Hl, Hl1, app_assoc|].
      by apply Forall_app. }
    intros m Hrm. destruct (Hm m Hrm) as [Hall Hlook].
    assert (∀ x, stored_volume d w1 x = stored_volume d w x) as Hsame
      by (intros x; by apply stored_volume_same).
    split.
    + intros x [->|Hin]%elem_of_cons; [by rewrite Hs|]. rewrite <- Hsame. by apply Hall.
    + intros x. rewrite Hlook, Hsame. destruct (decide (x = id)) as [->|Hne].
      * rewrite (bool_decide_eq_true_2 (id ∈ id :: rest)) by left.
        case_bool_decide; [done|]. by rewrite lookup_insert_eq, Hs.
      * rewrite (bool_decide_ext (x ∈ id :: rest) (x ∈ rest))
          by (rewrite elem_of_cons; tauto).
        case_bool_decide; [done|]. by rewrite lookup_insert_ne.
Qed.

(** X11. When [ListVolume] returns a map, it has an entry for exactly the
    volumes that have a record, and the entry of a volume is the info
    [GetVolumeInfo] builds from its record; every file of the volume naming
    scheme then held a record that loads, for one that does not makes the
    whole call fail. *)
Theorem X11_list_volume_result h d opts w m w' :
  ListVolume h d opts w = (Ok m, w') →
  (∀ id, m !! id = volume_info id <$> stored_volume d w id)
  ∧ (∀ id, is_Some (files w !! path_join (Device.Root (device d))
                      ((CFG_PREFIX +:+ VOLUME_CFG_PREFIX) +:+ id +:+ CFG_POSTFIX)) →
           is_Some (stored_volume d w id)).
Proof.
  intros E. unfold ListVolume in E. unfold bind at 1 2 in E. unfold emit in E.
  cbn [files log] in E.
  destruct (ListConfigIDs h _ _ _ _) as [[ids|e] w0] eqn:El; [|discriminate].
  apply ListConfigIDs_spec in El as (Hf0 & _ & _ & Hin). cbn [files] in *.
  apply ListVolume_loop_spec in E as (_ & _ & Hm).
  destruct (Hm m eq_refl) as [Hall Hlook].
  assert (∀ x, stored_volume d w0 x = stored_volume d w x) as Hsame
    by (intros x; by apply stored_volume_same).
  split.
  - intros id. rewrite Hlook, Hsame. case_bool_decide as Hid; [done|].
    rewrite lookup_empty. destruct (stored_volume d w id) as [v|] eqn:Hs; [|done].
    destruct Hid. apply Hin. apply stored_volume_inv in Hs as (key & Hk & Ho).
    apply blank_key in Hk as (_ & _ & ->). rewrite string_app_assoc. eauto.
  - intros id Hid. rewrite <- Hsame. by apply Hall, Hin.
Qed.

Lemma X11_witness :
  ∃ m, fst (ListVolume demo_host demo_driver ∅ world_at_restart) = Ok m
    ∧ (m !! "vol1") ≫= lookup "MountPoint" = Some "/var/lib/convoy/quobyte/mounts/vol1"
    ∧ (m !! "vol2") ≫= lookup "MountPoint" = Some ""
    ∧ m !! "vol3" = None.
Proof.
  destruct (ListVolume demo_host demo_driver ∅ world_at_restart) as [[m|e] w'] eqn:E;
    [|vm_compute in E; discriminate E].
  exists m. split; [reflexivity|].
  destruct (X11_list_volume_result demo_host demo_driver ∅ world_at_restart m w' E)
    as [Hm _].
  rewrite !Hm. vm_compute. repeat split.
Defined.

(** X12. [GetVolumeInfo], [MountPoint] and [ListVolume] are read-only
    whatever their outcome: the files are what they were, and the only
    events are the entries, the lock, reads and the listing; nothing is
    written or removed, and neither the cluster nor the mount commands are
    called. *)
Theorem X12_inspection_changes_nothing h d req opts w :
  let observes (w' : World) :=
    files w' = files w
    ∧ Forall (λ ev, is_observation ev = true) (events_of w w') in
  observes (GetVolumeInfo d (Request.Name req) w).2
  ∧ observes (MountPoint d req w).2
  ∧ observes (ListVolume h d opts w).2.
Proof.
  cbv zeta. split; [|split].
  - destruct (GetVolumeInfo d _ w) as [r w'] eqn:E. cbn [snd].
    apply GetVolumeInfo_spec in E as (Hf & (evs & Hl & Hr) & _).
    split; [done|]. rewrite (events_of_app _ _ _ Hl).
    eapply Forall_impl; [exact Hr|]. by intros ev [? _].
  - destruct (MountPoint d req w) as [r w'] eqn:E. cbn [snd]. go_unfold in E.
    repeat (case_match; simplify_eq); simplify_eq; (split; [done|]);
      events; repeat constructor.
  - destruct (ListVolume h d opts w) as [r w'] eqn:E. cbn [snd].
    unfold ListVolume, ListConfigIDs in E. go_unfold in E.
    destruct (disk_fault h _ _) as [e|].
    { simplify_eq. split; [done|]. events. repeat constructor. }
    go_step in E.
    match type of E with context [ListVolume_loop d ?ids ?acc ?w0] =>
      destruct (ListVolume_loop d ids acc w0) as [r1 w1] eqn:E1 end.
    apply ListVolume_loop_spec in E1 as (Hf & (evs & Hl & Hr) & _).
    cbn [files log] in *.
    assert (w' = w1) as -> by (destruct r1; by simplify_eq).
    split; [done|].
    rewrite (events_of_app w w1 (evs ++ [EvDisk (OpList (Device.Root (device d))
               (CFG_PREFIX +:+ VOLUME_CFG_PREFIX) CFG_POSTFIX) None;
               EvCall (CallListVolume opts)])%list).
    2: { rewrite Hl. by rewrite <- app_assoc. }
    apply Forall_app. split; [|repeat constructor].
    eapply Forall_impl; [exact Hr|]. by intros ev [? _].
Qed.

(** ** File names *)





(** ** Create, list, mount, unmount *)



(** X18. A successful [MountVolume] or [UmountVolume] rewrites the record
    of the volume with a new mount point and nothing else changed: name,
    remote id, owner, group, device and configuration stay. *)
Theorem X18_mount_changes_only_mount_point h d req w v :
  stored_volume d w (Request.Name req) = Some v →
  QuobyteVolume.Name v = Request.Name req →
  (∀ p w1, MountVolume h d req w = (Ok p, w1) →
     stored_volume d w1 (Request.Name req)
     = Some (QuobyteVolume.with_configPath "" (QuobyteVolume.with_MountPoint p v)))
  ∧ (∀ w1, UmountVolume h d req w = (Ok tt, w1) →
     stored_volume d w1 (Request.Name req)
     = Some (QuobyteVolume.with_configPath "" (QuobyteVolume.with_MountPoint "" v))).
Proof.
  intros Hs Hn. split.
  - intros p w1 (_ & _ & _ & _ & v' & key & Hs' & Hk & Hf)%MountVolume_spec.
    rewrite Hs in Hs'. injection Hs' as <-. rewrite Hn in Hk.
    eapply stored_key; [done|]. rewrite Hf. apply lookup_insert_eq.
  - intros w1 (v' & key & Hs' & Hk & Hf)%UmountVolume_spec.
    rewrite Hs in Hs'. injection Hs' as <-. rewrite Hn in Hk.
    eapply stored_key; [done|]. rewrite Hf. apply lookup_insert_eq.
Qed.

Lemma X18_witness :
  stored_volume demo_driver world_mounted "vol1"
  = Some (QuobyteVolume.Build "vol1" "id-vol1" "/var/lib/convoy/quobyte/mounts/vol1" ""
            "root" "nfsnobody" "vol1" "BASE").
Proof.
  exact (proj1 (X18_mount_changes_only_mount_point demo_host demo_driver vol1 world_created
                  (QuobyteVolume.Build "vol1" "id-vol1" "" "" "root" "nfsnobody" "vol1" "BASE")
                  ltac:(vm_compute; reflexivity) eq_refl)
           "/var/lib/convoy/quobyte/mounts/vol1" world_mounted
           ltac:(vm_compute; reflexivity)).
Defined.

(** X19. Create, mount, unmount: when all three succeed, the store after
    the unmount is the store after the create, file for file. *)
Theorem X19_mount_unmount_restores_store h d req w w1 p w2 w3 :
  CreateVolume h d req w = (Ok tt, w1) →
  MountVolume h d req w1 = (Ok p, w2) →
  UmountVolume h d req w2 = (Ok tt, w3) →
  files w3 = files w1.
Proof.
  intros (key & uuid & Hk & _ & Hf1)%CreateVolume_ok_inv Em Eu.
  set (rec := QuobyteVolume.Build (Request.Name req) uuid "" "" (Device.User (device d))
                (Device.Group (device d)) (Request.Name req)
                (Device.VolumeConfig (device d))) in *.
  assert (stored_volume d w1 (Request.Name req) = Some rec) as Hs1.
  { eapply stored_key; [done|]. rewrite Hf1. apply lookup_insert_eq. }
  apply MountVolume_spec in Em as (_ & _ & _ & _ & v & key2 & Hs & Hk2 & Hf2).
  rewrite Hs1 in Hs. injection Hs as <-. cbn [rec QuobyteVolume.Name] in Hk2.
  rewrite Hk in Hk2. injection Hk2 as <-.
  apply UmountVolume_spec in Eu as (v & key3 & Hs & Hk3 & Hf3).
  assert (stored_volume d w2 (Request.Name req)
          = Some (QuobyteVolume.with_configPath "" (QuobyteVolume.with_MountPoint p rec))) as Hs2.
  { eapply stored_key; [done|]. rewrite Hf2. apply lookup_insert_eq. }
  rewrite Hs2 in Hs. injection Hs as <-. cbn [rec QuobyteVolume.Name
    QuobyteVolume.with_configPath QuobyteVolume.with_MountPoint] in Hk3.
  rewrite Hk in Hk3. injection Hk3 as <-.
  rewrite Hf3, Hf2, Hf1. by rewrite !insert_insert_eq.
Qed.

Lemma X19_witness : files world_unmounted = files world_created.
Proof.
  apply (X19_mount_unmount_restores_store demo_host demo_driver vol1 empty_world world_created
           "/var/lib/convoy/quobyte/mounts/vol1" world_mounted world_unmounted);
    vm_compute; reflexivity.
Defined.

(** ** The mutex and the cluster, over whole runs *)

Lemma held_after_app evs2 evs1 :
  held_after evs1 = Some false → held_after (evs2 ++ evs1)%list = held_after evs2.
Proof.
  intros H1. induction evs2 as [|ev evs2 IH]; [done|].
  cbn [app held_after]. by rewrite IH.
Qed.

Ltac run_shape :=
  cbn [snd files log];
  lazymatch goal with
  | |- ∃ evs, ?l = (evs ++ ?base)%list ∧ _ =>
      let p := prefix_of l base in exists p; split; [reflexivity|]
  end;
  cbn [held_after count is_remote is_remote_create is_remote_delete orb Nat.add];
  repeat split; lia.

Ltac run_cases op :=
  intros;
  match goal with
  | |- ∃ evs, log (?m ?w).2 = _ ∧ _ =>
      destruct (m w) as [r w'] eqn:E; cbv [op] in E; go_unfold in E;
      repeat (case_match; simplify_eq); simplify_eq; run_shape
  end.

Lemma CreateVolume_run h d req w :
  ∃ evs, log (CreateVolume h d req w).2 = (evs ++ log w)%list
    ∧ held_after evs = Some false
    ∧ (count is_remote_create evs ≤ 1)%nat ∧ count is_remote_delete evs = 0.
Proof. run_cases CreateVolume. Qed.

Lemma DeleteVolume_run h d req w :
  ∃ evs, log (DeleteVolume h d req w).2 = (evs ++ log w)%list
    ∧ held_after evs = Some false
    ∧ (count is_remote_delete evs ≤ 1)%nat ∧ count is_remote_create evs = 0.
Proof. run_cases DeleteVolume. Qed.

Lemma MountVolume_run h d req w :
  ∃ evs, log (MountVolume h d req w).2 = (evs ++ log w)%list
    ∧ held_after evs = Some false ∧ count is_remote evs = 0.
Proof. run_cases MountVolume. Qed.

Lemma UmountVolume_run h d req w :
  ∃ evs, log (UmountVolume h d req w).2 = (evs ++ log w)%list
    ∧ held_after evs = Some false ∧ count is_remote evs = 0.
Proof. run_cases UmountVolume. Qed.

Lemma MountPoint_run d req w :
  ∃ evs, log (MountPoint d req w).2 = (evs ++ log w)%list
    ∧ held_after evs = Some false ∧ count is_remote evs = 0.
Proof. run_cases MountPoint. Qed.

Lemma GetVolumeInfo_run d n w :
  ∃ evs, log (GetVolumeInfo d n w).2 = (evs ++ log w)%list
    ∧ held_after evs = Some false ∧ count is_remote evs = 0.
Proof. run_cases GetVolumeInfo. Qed.

Lemma ObjectLoad_volume_run (v : QuobyteVolume.t) w :
  ∃ evs, log (ObjectLoad v w).2 = (evs ++ log w)%list
    ∧ held_after evs = Some false ∧ count is_remote evs = 0.
Proof. run_cases (@ObjectLoad). Qed.

Lemma ListVolume_loop_run d ids : ∀ acc w,
  ∃ evs, log (ListVolume_loop d ids acc w).2 = (evs ++ log w)%list
    ∧ held_after evs = Some false ∧ count is_remote evs = 0.
Proof.
  induction ids as [|id rest IH]; intros acc w.
  - by exists [].
  - cbn [ListVolume_loop]. unfold bind at 1.
    destruct (GetVolumeInfo_run d id w) as (evs1 & Hl1 & Hh1 & Hc1).
    destruct (GetVolumeInfo d id w) as [[info|e] w1]; cbn [snd] in Hl1; [|by exists evs1].
    destruct (IH (<[id := info]> acc) w1) as (evs2 & Hl2 & Hh2 & Hc2).
    exists (evs2 ++ evs1)%list. split; [by rewrite Hl2, Hl1, app_assoc|].
    rewrite held_after_app, count_app by done. split; [done|lia].
Qed.

Lemma remountVolumes_loop_run h d ids : ∀ w,
  ∃ evs, log (remountVolumes_loop h d ids w).2 = (evs ++ log w)%list
    ∧ held_after evs = Some false ∧ count is_remote evs = 0.
Proof.
  induction ids as [|id rest IH]; intros w.
  - by exists [].
  - cbn [remountVolumes_loop]. unfold bind at 1.
    destruct (ObjectLoad_volume_run (blankVolume d id) w) as (evs1 & Hl1 & Hh1 & Hc1).
    destruct (ObjectLoad (blankVolume d id) w) as [[vol|e] w1]; cbn [snd] in Hl1;
      [|by exists evs1].
    destruct (String.eqb _ _).
    + destruct (IH w1) as (evs2 & Hl2 & Hh2 & Hc2).
      exists (evs2 ++ evs1)%list. split; [by rewrite Hl2, Hl1, app_assoc|].
      rewrite held_after_app, count_app by done. split; [done|lia].
    + unfold bind at 1.
      destruct (MountVolume_run h d (Request.Build id ∅) w1) as (evs2 & Hl2 & Hh2 & Hc2).
      destruct (MountVolume h d _ w1) as [[p|e] w2]; cbn [snd] in Hl2; cbv beta iota.
      * destruct (IH w2) as (evs3 & Hl3 & Hh3 & Hc3).
        exists (evs3 ++ evs2 ++ evs1)%list.
        split; [rewrite Hl3; rewrite Hl2; rewrite Hl1; by rewrite !app_assoc|].
        rewrite !held_after_app, !count_app by (by rewrite ?held_after_app).
        split; [done|lia].
      * cbn [snd]. exists (evs2 ++ evs1)%list. split; [by rewrite Hl2, Hl1, app_assoc|].
        rewrite held_after_app, count_app by done. split; [done|lia].
Qed.

Lemma ListVolume_run h d opts w :
  ∃ evs, log (ListVolume h d opts w).2 = (evs ++ log w)%list
    ∧ held_after evs = Some false ∧ count is_remote evs = 0.
Proof.
  unfold ListVolume, ListConfigIDs. go_unfold.
  destruct (disk_fault h _ _) as [e|]; [run_shape|]. go_step.
  match goal with |- context [ListVolume_loop d ?ids ?acc ?w0] =>
    destruct (ListVolume_loop_run d ids acc w0) as (evs & Hl & Hh & Hc);
    destruct (ListVolume_loop d ids acc w0) as [[m|e] w1] end;
    cbn [snd log] in *; eexists (evs ++ [_; _])%list;
    (split; [rewrite Hl; by rewrite <- app_assoc|]);
    rewrite held_after_app, count_app by done; cbn; (split; [done|lia]).
Qed.

Lemma remountVolumes_run h d w :
  ∃ evs, log (remountVolumes h d w).2 = (evs ++ log w)%list
    ∧ held_after evs = Some false ∧ count is_remote evs = 0.
Proof.
  unfold remountVolumes, ListConfigIDs. go_unfold.
  destruct (disk_fault h _ _) as [e|]; [run_shape|]. go_step.
  match goal with |- context [remountVolumes_loop h d ?ids ?w0] =>
    destruct (remountVolumes_loop_run h d ids w0) as (evs & Hl & Hh & Hc) end.
  cbn [log] in Hl. eexists (evs ++ [_])%list.
  split; [rewrite Hl; by rewrite <- app_assoc|].
  rewrite held_after_app, count_app by done. cbn. split; [done|lia].
Qed.

Lemma Init_run h root config w :
  ∃ evs, log (Init h root config w).2 = (evs ++ log w)%list
    ∧ held_after evs = Some false ∧ count is_remote evs = 0.
Proof.
  unfold Init. go_unfold.
  destruct (ConfigFile (Device.Build root "" "" "" "" 0)) as [key|e]; [|run_shape].
  go_step. destruct (files w !! key) as [[dv|v]|] eqn:Ho.
  - rewrite bool_decide_eq_true_2 by eauto. go_step. rewrite Ho.
    cbn [unmarshal Device_ops]. go_step.
    match goal with |- context [remountVolumes h ?dr ?w0] =>
      destruct (remountVolumes_run h dr w0) as (evs & Hl & Hh & Hc);
      destruct (remountVolumes h dr w0) as [[[]|e] w1] end;
      cbn [snd log] in *; eexists (evs ++ [_; _])%list;
      (split; [rewrite Hl; by rewrite <- app_assoc|]);
      rewrite held_after_app, count_app by done; cbn; (split; [done|lia]).
  - rewrite bool_decide_eq_true_2 by eauto. go_step. rewrite Ho.
    cbn [unmarshal Device_ops]. go_step. run_shape.
  - rewrite bool_decide_eq_false_2 by (by intros [? ?]). go_step.
    destruct (disk_fault h _ (OpMkdir root)) as [e|]; [run_shape|]. go_step.
    destruct (check_required _ _) as [[]|e]; [|run_shape]. go_step.
    destruct (check_registries _ _) as [[]|e]; [|run_shape]. go_step.
    match goal with |- context [remountVolumes h ?dr ?w0] =>
      destruct (remountVolumes_run h dr w0) as (evs & Hl & Hh & Hc);
      destruct (remountVolumes h dr w0) as [[[]|e] w1] end;
      cbn [snd log] in *; eexists (evs ++ [_; _])%list;
      (split; [rewrite Hl; by rewrite <- app_assoc|]);
      rewrite held_after_app, count_app by done; cbn; (split; [done|lia]).
Qed.

(** X20. Every exported operation, [Init] with its recovery and
    [ListVolume] with its lookups included, takes the mutex only when it is
    free and has released it when it returns, on every path: no run of the
    driver blocks on its own lock or leaves it held. *)
Theorem X20_mutex_free_after_every_operation h d root config req opts w :
  held_after (events_of w (Init h root config w).2) = Some false
  ∧ held_after (events_of w (CreateVolume h d req w).2) = Some false
  ∧ held_after (events_of w (DeleteVolume h d req w).2) = Some false
  ∧ held_after (events_of w (MountVolume h d req w).2) = Some false
  ∧ held_after (events_of w (UmountVolume h d req w).2) = Some false
  ∧ held_after (events_of w (MountPoint d req w).2) = Some false
  ∧ held_after (events_of w (GetVolumeInfo d (Request.Name req) w).2) = Some false
  ∧ held_after (events_of w (ListVolume h d opts w).2) = Some false.
Proof.
  repeat split.
  - destruct (Init_run h root config w) as (evs & Hl & Hh & _).
    by rewrite (events_of_app _ _ _ Hl).
  - destruct (CreateVolume_run h d req w) as (evs & Hl & Hh & _).
    by rewrite (events_of_app _ _ _ Hl).
  - destruct (DeleteVolume_run h d req w) as (evs & Hl & Hh & _).
    by rewrite (events_of_app _ _ _ Hl).
  - destruct (MountVolume_run h d req w) as (evs & Hl & Hh & _).
    by rewrite (events_of_app _ _ _ Hl).
  - destruct (UmountVolume_run h d req w) as (evs & Hl & Hh & _).
    by rewrite (events_of_app _ _ _ Hl).
  - destruct (MountPoint_run d req w) as (evs & Hl & Hh & _).
    by rewrite (events_of_app _ _ _ Hl).
  - destruct (GetVolumeInfo_run d (Request.Name req) w) as (evs & Hl & Hh & _).
    by rewrite (events_of_app _ _ _ Hl).
  - destruct (ListVolume_run h d opts w) as (evs & Hl & Hh & _).
    by rewrite (events_of_app _ _ _ Hl).
Qed.

(** X21. Only [CreateVolume] and [DeleteVolume] talk to the cluster, and
    each at most once per call: a create never deletes remotely and a
    delete never creates; [Init] with its recovery, [MountVolume] and
    [UmountVolume] make no remote call at all. *)
Theorem X21_remote_calls_confined h d root config req w :
  count is_remote (events_of w (Init h root config w).2) = 0
  ∧ count is_remote (events_of w (MountVolume h d req w).2) = 0
  ∧ count is_remote (events_of w (UmountVolume h d req w).2) = 0
  ∧ ((count is_remote_create (events_of w (CreateVolume h d req w).2) ≤ 1)%nat
     ∧ count is_remote_delete (events_of w (CreateVolume h d req w).2) = 0)
  ∧ ((count is_remote_delete (events_of w (DeleteVolume h d req w).2) ≤ 1)%nat
     ∧ count is_remote_create (events_of w (DeleteVolume h d req w).2) = 0).
Proof.
  split; [|split; [|split; [|split]]].
  - destruct (Init_run h root config w) as (evs & Hl & _ & Hc).
    by rewrite (events_of_app _ _ _ Hl).
  - destruct (MountVolume_run h d req w) as (evs & Hl & _ & Hc).
    by rewrite (events_of_app _ _ _ Hl).
  - destruct (UmountVolume_run h d req w) as (evs & Hl & _ & Hc).
    by rewrite (events_of_app _ _ _ Hl).
  - destruct (CreateVolume_run h d req w) as (evs & Hl & _ & Hc).
    by rewrite (events_of_app _ _ _ Hl).
  - destruct (DeleteVolume_run h d req w) as (evs & Hl & _ & Hc).
    by rewrite (events_of_app _ _ _ Hl).
Qed.

(** ** The mount commands *)

(** X23. [MountVolume] on a stored record runs the mount command once, for
    that record, with the device [GetDevice] gives (the record's [Device]),
    the options [-t quobyte] of [GetMountOpts] and, as the target, the
    [OPT_MOUNT_POINT] option of the request (empty when absent); the
    mount point it returns is the one the command answered. *)
Theorem X23_mount_command_arguments h d req w v r w' :
  stored_volume d w (Request.Name req) = Some v →
  MountVolume h d req w = (r, w') →
  ∃ answer,
    In (EvMount (QuobyteVolume.with_configPath (Device.Root (device d)) v)
          (QuobyteVolume.Device v) ["-t"; "quobyte"]
          (go_index (Request.Options req) OPT_MOUNT_POINT) answer)
       (events_of w w')
    ∧ count is_mount_exec (events_of w w') = 1
    ∧ ∀ p, r = Ok p → answer = Ok p.
Proof.
  intros Hs E. apply stored_volume_inv in Hs as (key & Hk & Ho).
  go_unfold in E. rewrite Hk in E. go_step in E. rewrite Ho in E.
  vol_simpl in E. go_step in E. vol_simpl in E.
  match type of E with context [mount_exec h ?l ?a ?b ?c ?x ?y] =>
    exists (mount_exec h l a b c x y);
    destruct (mount_exec h l a b c x y) as [p|e] eqn:Hr end.
  - go_step in E. repeat case_match; simplify_eq;
      (split; [in_events|]; split; [in_events|]; congruence).
  - simplify_eq. split; [in_events|]. split; [in_events|]. congruence.
Qed.

Lemma X23_witness :
  In (EvMount (QuobyteVolume.Build "vol1" "id-vol1" "" demo_root "root" "nfsnobody" "vol1" "BASE")
        "vol1" ["-t"; "quobyte"] "" (Ok "/var/lib/convoy/quobyte/mounts/vol1"))
     (events_of world_created world_mounted).
Proof.
  destruct (X23_mount_command_arguments demo_host demo_driver vol1 world_created
              (QuobyteVolume.Build "vol1" "id-vol1" "" "" "root" "nfsnobody" "vol1" "BASE")
              (Ok "/var/lib/convoy/quobyte/mounts/vol1") world_mounted
              ltac:(vm_compute; reflexivity) ltac:(vm_compute; reflexivity))
    as (answer & Hin & _ & Ha).
  rewrite (Ha _ eq_refl) in Hin. exact Hin.
Defined.

Ltac mount_shape :=
  cbn [snd files log];
  lazymatch goal with
  | |- ∃ evs, ?l = (evs ++ ?base)%list ∧ _ =>
      let p := prefix_of l base in exists p; split; [reflexivity|]
  end;
  cbn [count is_mount is_umount Nat.add];
  repeat split; lia.

Ltac mount_cases op :=
  intros;
  match goal with
  | |- ∃ evs, log (?m ?w).2 = _ ∧ _ =>
      destruct (m w) as [r w'] eqn:E; cbv [op] in E; go_unfold in E;
      repeat (case_match; simplify_eq); simplify_eq; mount_shape
  end.

Lemma CreateVolume_mounts h d req w :
  ∃ evs, log (CreateVolume h d req w).2 = (evs ++ log w)%list
    ∧ count is_mount evs = 0 ∧ count is_umount evs = 0.
Proof. mount_cases CreateVolume. Qed.

Lemma DeleteVolume_mounts h d req w :
  ∃ evs, log (DeleteVolume h d req w).2 = (evs ++ log w)%list
    ∧ count is_mount evs = 0 ∧ count is_umount evs = 0.
Proof. mount_cases DeleteVolume. Qed.

Lemma MountVolume_mounts h d req w :
  ∃ evs, log (MountVolume h d req w).2 = (evs ++ log w)%list
    ∧ (count is_mount evs ≤ 1)%nat ∧ count is_umount evs = 0.
Proof. mount_cases MountVolume. Qed.

Lemma UmountVolume_mounts h d req w :
  ∃ evs, log (UmountVolume h d req w).2 = (evs ++ log w)%list
    ∧ count is_mount evs = 0 ∧ (count is_umount evs ≤ 1)%nat.
Proof. mount_cases UmountVolume. Qed.

(** X24. The mount commands are run by [MountVolume] and [UmountVolume]
    alone, each its own command and at most once per call: [CreateVolume]
    mounts nothing, and [DeleteVolume] never unmounts a volume on the way. *)
Theorem X24_mount_commands_confined h d req w :
  (count is_mount (events_of w (CreateVolume h d req w).2) = 0
   ∧ count is_umount (events_of w (CreateVolume h d req w).2) = 0)
  ∧ (count is_mount (events_of w (DeleteVolume h d req w).2) = 0
     ∧ count is_umount (events_of w (DeleteVolume h d req w).2) = 0)
  ∧ ((count is_mount (events_of w (MountVolume h d req w).2) ≤ 1)%nat
     ∧ count is_umount (events_of w (MountVolume h d req w).2) = 0)
  ∧ (count is_mount (events_of w (UmountVolume h d req w).2) = 0
     ∧ (count is_umount (events_of w (UmountVolume h d req w).2) ≤ 1)%nat).
Proof.
  split; [|split; [|split]].
  - destruct (CreateVolume_mounts h d req w) as (evs & Hl & Hc).
    by rewrite (events_of_app _ _ _ Hl).
  - destruct (DeleteVolume_mounts h d req w) as (evs & Hl & Hc).
    by rewrite (events_of_app _ _ _ Hl).
  - destruct (MountVolume_mounts h d req w) as (evs & Hl & Hc).
    by rewrite (events_of_app _ _ _ Hl).
  - destruct (UmountVolume_mounts h d req w) as (evs & Hl & Hc).
    by rewrite (events_of_app _ _ _ Hl).
Qed.
